(** * Memory Sequence Game: a shallow embedding of [memory/memorygame.py]

    The development follows the Python module top to bottom: the module
    constants, the rectangle arithmetic of [pygame.Rect] that the program
    relies on, the [Button] class, the helper [create_buttons], and the
    [Game] class with its playback, recall and menu loops.

    Presentation that carries no logic (colours, fonts, sounds, the
    per-frame colour interpolation of [Button.update], which is float
    arithmetic) is left out; every call that the claims depend on (the
    frames, the delays, the highlights, the polls of the event queue, the
    random draws) is kept, in the order of the source. *)

From Stdlib Require Import ZArith QArith List Bool Lia.
Import ListNotations.
Open Scope Z_scope.

Set Implicit Arguments.

(** ** Constants *)

Definition WIDTH : Z := 800.
Definition HEIGHT : Z := 600.
Definition FPS : Z := 60.
Definition BUTTON_SIZE : Z := 150.
Definition BUTTON_PADDING : Z := 30.
Definition MAX_BUTTONS : Z := 10.
Definition HIGHLIGHT_ANIMATION_STEPS : Z := 20.

(** ** Python values the program uses *)

(** The uncaught exceptions the modelled statements can raise. *)
Inductive Exn : Set := TypeError | ValueError | IndexError.

(** Result of a Python expression that may raise. *)
Inductive Py (A : Type) : Type :=
| Returns (a : A)
| Raises (e : Exn).
Arguments Returns {A} a.
Arguments Raises {A} e.

(** [range(n)]: empty when [n <= 0]. *)
Definition py_range (n : Z) : list Z := map Z.of_nat (seq 0 (Z.to_nat n)).

(** [l[i]] on a Python list: negative indices count from the end, anything
    outside [-len, len) raises IndexError (here [None]). *)
Definition py_index {A : Type} (l : list A) (i : Z) : option A :=
  let len := Z.of_nat (length l) in
  if (0 <=? i) && (i <? len) then nth_error l (Z.to_nat i)
  else if (- len <=? i) && (i <? 0) then nth_error l (Z.to_nat (len + i))
  else None.

(** ** [pygame.Rect] *)

Module Rect.

Record t : Set := make { x : Z; y : Z; width : Z; height : Z }.

Definition centerx (r : t) : Z := x r + width r / 2.
Definition centery (r : t) : Z := y r + height r / 2.

(** [Rect.collidepoint]: left and top edges inside, right and bottom
    edges outside. *)
Definition collidepoint (r : t) (pos : Z * Z) : bool :=
  let (px, py) := pos in
  (x r <=? px) && (px <? x r + width r) &&
  (y r <=? py) && (py <? y r + height r).

(** Two rectangles overlap when their interiors share an area (the test
    of [Rect.colliderect] on rectangles of positive size). *)
Definition overlaps (a b : t) : bool :=
  (x a <? x b + width b) && (x b <? x a + width a) &&
  (y a <? y b + height b) && (y b <? y a + height a).

End Rect.

(** ** class Button *)

Module Button.

(** The fields of a button that take part in the game logic.  [scale]
    stays at its initial 1.0 (the program never calls [start_hover]), so
    [int(self.rect.width * self.scale)] is the width itself. *)
Record t : Set := make { rect : Rect.t; id : Z }.

Definition is_clicked (b : t) (pos : Z * Z) : bool :=
  let scaled_width := Rect.width (rect b) in
  let scaled_height := Rect.height (rect b) in
  let scaled_rect :=
    Rect.make (Rect.centerx (rect b) - scaled_width / 2)
              (Rect.centery (rect b) - scaled_height / 2)
              scaled_width scaled_height in
  Rect.collidepoint scaled_rect pos.

End Button.

(** ** Helper function [create_buttons] *)

(** Lines 456-460: the grid dimensions.  [int(num_buttons ** 0.5)] is the
    truncated floating-point square root; for the cell counts the program
    can reach (at most [MAX_BUTTONS], and any value below 2^52) it is the
    integer square root, which is what the model uses. *)
Definition grid_size (num_buttons : Z) : Z * Z :=
  let grid_cols := Z.sqrt num_buttons in
  let grid_rows := grid_cols in
  let grid_cols := if grid_cols ^ 2 <? num_buttons then grid_cols + 1 else grid_cols in
  let grid_rows := if grid_cols * grid_rows <? num_buttons then grid_rows + 1 else grid_rows in
  (grid_cols, grid_rows).

Definition grid_cols (num_buttons : Z) : Z := fst (grid_size num_buttons).
Definition grid_rows (num_buttons : Z) : Z := snd (grid_size num_buttons).

(** Lines 463-468: top-left corner of the centred grid. *)
Definition grid_start (num_buttons : Z) : Z * Z :=
  let total_width := grid_cols num_buttons * BUTTON_SIZE + (grid_cols num_buttons - 1) * BUTTON_PADDING in
  let total_height := grid_rows num_buttons * BUTTON_SIZE + (grid_rows num_buttons - 1) * BUTTON_PADDING in
  let start_x := (WIDTH - total_width) / 2 in
  let start_y := (HEIGHT - total_height) / 2 in
  (start_x, start_y).

(** Lines 471-476: the button built by iteration [i] of the loop. *)
Definition button_at (num_buttons i : Z) : Button.t :=
  let row := i / grid_cols num_buttons in
  let col := i mod grid_cols num_buttons in
  let x := fst (grid_start num_buttons) + col * (BUTTON_SIZE + BUTTON_PADDING) in
  let y := snd (grid_start num_buttons) + row * (BUTTON_SIZE + BUTTON_PADDING) in
  let rect := Rect.make x y BUTTON_SIZE BUTTON_SIZE in
  Button.make rect i.

(** The whole function.  A negative argument makes [num_buttons ** 0.5] a
    complex number, on which [int] raises TypeError.  The loop appends to
    the local list [buttons], as in the source. *)
Definition create_buttons (num_buttons : Z) : Py (list Button.t) :=
  if num_buttons <? 0 then Raises TypeError
  else
    Returns (fold_left (fun buttons i => buttons ++ [button_at num_buttons i])
                       (py_range num_buttons) []).

(** The list [create_buttons] returns, for the callers that reason about
    it once the argument is known to be non-negative. *)
Definition layout (n : Z) : list Button.t := map (button_at n) (py_range n).

(** ** The environment of the program

    The program talks to pygame and to [random].  The model keeps what the
    game logic can observe of them:
    - the pygame event queue: events posted by the system wait in it until
      [pygame.event.get()] removes and returns them all;
    - time: events are posted only while the program sits in a blocking
      call ([CLOCK.tick] or [pygame.time.delay]); [timeline] lists, for
      each coming blocking call, the events posted during it.  The model
      follows a run as far as the timeline goes: a blocking call reached
      with the timeline used up ends the observation ([Cut]);
    - the random source: [dice] holds the coming raw draws (0 once used up);
      [random.randint(a, b)] reduces a draw into [a..b];
    - what the program shows: the trace [out]. *)

(** A [MOUSEBUTTONDOWN] carries what [pygame.mouse.get_pos()] returns when
    the program handles the event (the handlers ignore the position stored
    in the event itself).  [OTHER] stands for every event type the program
    does not test for. *)
Inductive Event : Set :=
| QUIT
| MOUSEBUTTONDOWN (pos : Z * Z)
| OTHER.

Inductive Out : Set :=
| Frame                      (* fill, draw every button, flip *)
| Tick                       (* CLOCK.tick(FPS) *)
| Delay (ms : Z)             (* pygame.time.delay(ms) *)
| Highlight (id : Z)         (* button.start_highlight() *)
| Unhighlight (id : Z)       (* button.start_unhighlight() *)
| TitleScreen
| DifficultyScreen
| GameOverScreen (score : Z)
| Flip.

(** Where in the program a blocking call sits. *)
Inductive Phase : Set :=
| InTitle | InDifficulty | InGameOver
| RoundStart | Playback | Recall | Growing.

Record World : Type := mkWorld {
  queue : list Event;
  timeline : list (list Event);
  dice : list Z;
  out : list Out
}.

(** ** class Game: the fields *)

Inductive Screen : Set := TITLE | DIFFICULTY | GAME | GAME_OVER.
Inductive Difficulty : Set := Normal | Fast.

Record Game : Set := mkGame {
  state : Screen;
  buttons : list Button.t;
  sequence : list Z;
  user_sequence : list Z;
  score : Z;
  num_buttons : Z;
  max_buttons : Z;
  difficulty : Difficulty;
  display_speed : Z;
  fast_display_speed : Z
}.

Definition set_state (v : Screen) (g : Game) : Game :=
  mkGame v (buttons g) (sequence g) (user_sequence g) (score g) (num_buttons g)
         (max_buttons g) (difficulty g) (display_speed g) (fast_display_speed g).
Definition set_buttons (v : list Button.t) (g : Game) : Game :=
  mkGame (state g) v (sequence g) (user_sequence g) (score g) (num_buttons g)
         (max_buttons g) (difficulty g) (display_speed g) (fast_display_speed g).
Definition set_sequence (v : list Z) (g : Game) : Game :=
  mkGame (state g) (buttons g) v (user_sequence g) (score g) (num_buttons g)
         (max_buttons g) (difficulty g) (display_speed g) (fast_display_speed g).
Definition set_user_sequence (v : list Z) (g : Game) : Game :=
  mkGame (state g) (buttons g) (sequence g) v (score g) (num_buttons g)
         (max_buttons g) (difficulty g) (display_speed g) (fast_display_speed g).
Definition set_score (v : Z) (g : Game) : Game :=
  mkGame (state g) (buttons g) (sequence g) (user_sequence g) v (num_buttons g)
         (max_buttons g) (difficulty g) (display_speed g) (fast_display_speed g).
Definition set_num_buttons (v : Z) (g : Game) : Game :=
  mkGame (state g) (buttons g) (sequence g) (user_sequence g) (score g) v
         (max_buttons g) (difficulty g) (display_speed g) (fast_display_speed g).
Definition set_difficulty (v : Difficulty) (g : Game) : Game :=
  mkGame (state g) (buttons g) (sequence g) (user_sequence g) (score g) (num_buttons g)
         (max_buttons g) v (display_speed g) (fast_display_speed g).
Definition set_display_speed (v : Z) (g : Game) : Game :=
  mkGame (state g) (buttons g) (sequence g) (user_sequence g) (score g) (num_buttons g)
         (max_buttons g) (difficulty g) v (fast_display_speed g).
Definition set_fast_display_speed (v : Z) (g : Game) : Game :=
  mkGame (state g) (buttons g) (sequence g) (user_sequence g) (score g) (num_buttons g)
         (max_buttons g) (difficulty g) (display_speed g) v.

(** ** The monad of the methods: game fields, environment, abrupt ends *)

Inductive Outcome (A : Type) : Type :=
| Ok (a : A) (g : Game) (w : World)          (* the call returned *)
| Exit (g : Game) (w : World)                (* pygame.quit(); sys.exit() *)
| Raise (e : Exn) (g : Game) (w : World)     (* uncaught exception *)
| Cut (ph : Phase) (g : Game) (w : World)    (* timeline over inside a blocking call *)
| OutOfFuel.                                 (* recursion budget of the model used up *)
Arguments Ok {A} a g w.
Arguments Exit {A} g w.
Arguments Raise {A} e g w.
Arguments Cut {A} ph g w.
Arguments OutOfFuel {A}.

Definition M (A : Type) : Type := Game -> World -> Outcome A.

Definition ret {A : Type} (a : A) : M A := fun g w => Ok a g w.

Definition bind {A B : Type} (m : M A) (k : A -> M B) : M B :=
  fun g w =>
    match m g w with
    | Ok a g' w' => k a g' w'
    | Exit g' w' => Exit g' w'
    | Raise e g' w' => Raise e g' w'
    | Cut ph g' w' => Cut ph g' w'
    | OutOfFuel => OutOfFuel
    end.

Declare Scope game_scope.
Delimit Scope game_scope with game.
Notation "x <- m ;; k" := (bind m (fun x => k))
  (at level 61, m at next level, right associativity) : game_scope.
Notation "m ;; k" := (bind m (fun _ => k))
  (at level 61, right associativity) : game_scope.
Open Scope game_scope.

Definition get : M Game := fun g w => Ok g g w.
Definition modify (f : Game -> Game) : M unit := fun g w => Ok tt (f g) w.
Definition raise {A : Type} (e : Exn) : M A := fun g w => Raise e g w.
Definition sys_exit {A : Type} : M A := fun g w => Exit g w.
Definition out_of_fuel {A : Type} : M A := fun _ _ => OutOfFuel.

Definition lift_py {A : Type} (p : Py A) : M A :=
  match p with
  | Returns a => ret a
  | Raises e => raise e
  end.

Definition emit (o : Out) : M unit :=
  fun g w => Ok tt g (mkWorld (queue w) (timeline w) (dice w) (out w ++ [o])).

(** One blocking call: the events of the next timeline entry are posted. *)
Definition elapse (ph : Phase) : M unit :=
  fun g w =>
    match timeline w with
    | [] => Cut ph g w
    | posted :: later => Ok tt g (mkWorld (queue w ++ posted) later (dice w) (out w))
    end.

Definition tick (ph : Phase) : M unit := emit Tick;; elapse ph.
Definition delay (ph : Phase) (ms : Z) : M unit := emit (Delay ms);; elapse ph.

(** [pygame.event.get()]: the whole queue, which is left empty. *)
Definition event_get : M (list Event) :=
  fun g w => Ok (queue w) g (mkWorld [] (timeline w) (dice w) (out w)).

(** [random.randint(a, b)]: ValueError on an empty range, else the next raw
    draw reduced into [a..b]. *)
Definition randint (a b : Z) : M Z :=
  fun g w =>
    if b <? a then Raise ValueError g w
    else Ok (a + hd 0 (dice w) mod (b - a + 1)) g
            (mkWorld (queue w) (timeline w) (tl (dice w)) (out w)).

(** [for x in l: body(x)] without [break]. *)
Fixpoint for_each {A : Type} (l : list A) (body : A -> M unit) : M unit :=
  match l with
  | [] => ret tt
  | x :: rest => body x;; for_each rest body
  end.

(** ** class Game: the methods *)

(** [Game.__init__]. *)
Definition init_game : Game :=
  mkGame TITLE (layout 4) [] [] 0 4 MAX_BUTTONS Normal 500 100.

Definition reset_game : M unit :=
  modify (set_sequence []);;
  modify (set_user_sequence []);;
  modify (set_score 0);;
  modify (set_num_buttons 4);;
  g <- get;;
  created <- lift_py (create_buttons (num_buttons g));;
  modify (set_buttons created).

Definition add_buttons (count : Z) : M unit :=
  for_each (py_range count) (fun _ =>
    g <- get;;
    if num_buttons g <? max_buttons g
    then modify (set_num_buttons (num_buttons g + 1))
    else ret tt);;
  g <- get;;
  created <- lift_py (create_buttons (num_buttons g));;
  modify (set_buttons created).

Definition add_to_sequence : M unit :=
  g <- get;;
  drawn <- randint 0 (num_buttons g - 1);;
  modify (fun g => set_sequence (sequence g ++ [drawn]) g).

(** One pass of the redraw loops (lines 293-299 and their copies): fill,
    draw and update the buttons, flip, then [CLOCK.tick(FPS)]. *)
Definition frame (ph : Phase) : M unit := emit Frame;; tick ph.

(** [for _ in range(HIGHLIGHT_ANIMATION_STEPS): ...]. *)
Definition animation (ph : Phase) : M unit :=
  for_each (py_range HIGHLIGHT_ANIMATION_STEPS) (fun _ => frame ph).

(** The argument of [pygame.time.delay] at line 300. *)
Definition highlight_delay (g : Game) : Z :=
  match difficulty g with
  | Fast => fast_display_speed g
  | Normal => display_speed g
  end.

Definition animate_sequence : M unit :=
  g <- get;;
  for_each (sequence g) (fun button_id =>
    g <- get;;
    match py_index (buttons g) button_id with
    | None => raise IndexError
    | Some button =>
        emit (Highlight (Button.id button));;
        animation Playback;;
        delay Playback (highlight_delay g);;
        emit (Unhighlight (Button.id button));;
        animation Playback;;
        delay Playback 100
    end).

(** The locals [user_input] and [running] of [run_gameplay]. *)
Record Locals : Set := mkLocals { user_input : option Z; running : bool }.

(** Lines 339-367: the button under the mouse was found. *)
Definition press (button : Button.t) (idx : Z) (loc : Locals) : M Locals :=
  let user_input := Button.id button in
  emit (Highlight (Button.id button));;
  animation Recall;;
  delay Recall 100;;
  emit (Unhighlight (Button.id button));;
  animation Recall;;
  modify (fun g => set_user_sequence (user_sequence g ++ [user_input]) g);;
  g <- get;;
  match py_index (sequence g) idx with
  | None => raise IndexError
  | Some expected =>
      if negb (user_input =? expected)
      then ret (mkLocals (Some user_input) false)
      else ret (mkLocals (Some user_input) (running loc))
  end.

(** Lines 337-368: [for button in self.buttons], left by [break] at the
    first button that is clicked. *)
Fixpoint for_buttons (bs : list Button.t) (pos : Z * Z) (idx : Z) (loc : Locals)
  : M Locals :=
  match bs with
  | [] => ret loc
  | button :: rest =>
      if Button.is_clicked button pos
      then press button idx loc
      else for_buttons rest pos idx loc
  end.

(** Lines 331-368: [for event in pygame.event.get()].  The [break] of line
    368 leaves the loop over the buttons only, so every event of the batch
    is handled. *)
Fixpoint for_events (batch : list Event) (idx : Z) (loc : Locals) : M Locals :=
  match batch with
  | [] => ret loc
  | event :: rest =>
      loc' <- match event with
              | QUIT => sys_exit
              | MOUSEBUTTONDOWN pos =>
                  g <- get;; for_buttons (buttons g) pos idx loc
              | OTHER => ret loc
              end;;
      for_events rest idx loc'
  end.

(** Lines 330-369: [while user_input is None]. *)
Fixpoint wait_input (fuel : nat) (idx : Z) (loc : Locals) : M Locals :=
  match fuel with
  | O => out_of_fuel
  | S fuel' =>
      batch <- event_get;;
      loc' <- for_events batch idx loc;;
      tick Recall;;
      match user_input loc' with
      | None => wait_input fuel' idx loc'
      | Some _ => ret loc'
      end
  end.

(** Lines 328-371: [for idx in range(len(self.sequence))]; returns
    [running]. *)
Fixpoint for_idx (fuel : nat) (idxs : list Z) (running0 : bool) : M bool :=
  match idxs with
  | [] => ret running0
  | idx :: rest =>
      loc <- wait_input fuel idx (mkLocals None running0);;
      if negb (running loc) then ret false
      else for_idx fuel rest (running loc)
  end.

(** Lines 377-382: the end of a round that was replayed correctly. *)
Definition complete_round : M unit :=
  modify (fun g => set_score (score g + 1) g);;
  g <- get;;
  if (score g mod 5 =? 0) && (num_buttons g <? max_buttons g)
  then add_buttons 2;; delay Growing 300
  else ret tt.

(** Lines 315-382: [while running]. *)
Fixpoint round_loop (fuel : nat) : M unit :=
  match fuel with
  | O => out_of_fuel
  | S fuel' =>
      emit Frame;;
      delay RoundStart 500;;
      add_to_sequence;;
      animate_sequence;;
      modify (set_user_sequence []);;
      g <- get;;
      still_running <- for_idx fuel' (py_range (Z.of_nat (length (sequence g)))) true;;
      if negb still_running then ret tt
      else complete_round;; round_loop fuel'
  end.

Definition run_gameplay (fuel : nat) : M unit :=
  reset_game;;
  round_loop fuel;;
  modify (set_state GAME_OVER).

(** The menus of [Game.run]. *)
Definition start_button_rect : Rect.t := Rect.make (WIDTH / 2 - 100) (HEIGHT / 2 + 50) 200 60.
Definition normal_button_rect : Rect.t := Rect.make (WIDTH / 2 - 100) (HEIGHT / 2 - 50) 200 60.
Definition fast_button_rect : Rect.t := Rect.make (WIDTH / 2 - 100) (HEIGHT / 2 + 50) 200 60.
Definition restart_button_rect : Rect.t := Rect.make (WIDTH / 2 - 100) (HEIGHT / 2 + 100) 200 60.

(** Lines 416-419 and 424-427. *)
Definition choose (d : Difficulty) : M unit :=
  match d with
  | Normal =>
      modify (set_difficulty Normal);;
      modify (set_display_speed 500);;
      modify (set_fast_display_speed 100);;
      modify (set_state GAME)
  | Fast =>
      modify (set_difficulty Fast);;
      modify (set_display_speed 100);;
      modify (set_fast_display_speed 50);;
      modify (set_state GAME)
  end.

(** The event loops of the three menus; here [break] leaves the loop over
    the events. *)
Fixpoint title_events (batch : list Event) : M unit :=
  match batch with
  | [] => ret tt
  | QUIT :: _ => sys_exit
  | MOUSEBUTTONDOWN pos :: rest =>
      if Rect.collidepoint start_button_rect pos
      then modify (set_state DIFFICULTY)
      else title_events rest
  | OTHER :: rest => title_events rest
  end.

Fixpoint difficulty_events (batch : list Event) : M unit :=
  match batch with
  | [] => ret tt
  | QUIT :: _ => sys_exit
  | MOUSEBUTTONDOWN pos :: rest =>
      if Rect.collidepoint normal_button_rect pos then choose Normal
      else if Rect.collidepoint fast_button_rect pos then choose Fast
      else difficulty_events rest
  | OTHER :: rest => difficulty_events rest
  end.

Fixpoint game_over_events (batch : list Event) : M unit :=
  match batch with
  | [] => ret tt
  | QUIT :: _ => sys_exit
  | MOUSEBUTTONDOWN pos :: rest =>
      if Rect.collidepoint restart_button_rect pos
      then modify (set_state TITLE)
      else game_over_events rest
  | OTHER :: rest => game_over_events rest
  end.

(** One pass of [while True] in [Game.run]. *)
Definition run_iteration (fuel : nat) : M unit :=
  g <- get;;
  match state g with
  | TITLE =>
      emit TitleScreen;;
      batch <- event_get;;
      title_events batch;;
      emit Flip;;
      tick InTitle
  | DIFFICULTY =>
      emit DifficultyScreen;;
      batch <- event_get;;
      difficulty_events batch;;
      emit Flip;;
      tick InDifficulty
  | GAME =>
      run_gameplay fuel;;
      modify (set_state GAME_OVER)
  | GAME_OVER =>
      emit (GameOverScreen (score g));;
      batch <- event_get;;
      game_over_events batch;;
      emit Flip;;
      tick InGameOver
  end.

Fixpoint run (fuel : nat) : M unit :=
  match fuel with
  | O => out_of_fuel
  | S fuel' => run_iteration fuel';; run fuel'
  end.

(** ** Vocabulary of the specifications *)

(** What holds of an outcome: [Q] of a returned value, [I] of the state
    where the observation was cut, [X] of the state at [sys.exit()]; an
    exception never satisfies it, and [F] says whether running out of
    model fuel is accepted. *)
Definition post {A : Type}
    (I : Phase -> Game -> World -> Prop) (X : Game -> World -> Prop) (F : Prop)
    (o : Outcome A) (Q : A -> Game -> World -> Prop) : Prop :=
  match o with
  | Ok a g w => Q a g w
  | Exit g w => X g w
  | Raise _ _ _ => False
  | Cut ph g w => I ph g w
  | OutOfFuel => F
  end.

(** The game-state part of an outcome, when there is one. *)
Definition final_game {A : Type} (o : Outcome A) : option Game :=
  match o with
  | Ok _ g _ | Exit g _ | Raise _ g _ | Cut _ g _ => Some g
  | OutOfFuel => None
  end.

(** Cell count reached at a given score, for a given maximum. *)
Definition grown (maximum score : Z) : Z :=
  Z.max 4 (Z.min maximum (4 + 2 * (score / 5))).

(** The fields of a session: [extra] is 0 between rounds and 1 from the
    moment the round's element is appended; [g0] is the game when
    [run_gameplay] was entered. *)
Record session_inv (g0 : Game) (extra : Z) (g : Game) : Prop := {
  inv_state : state g = state g0;
  inv_max : max_buttons g = max_buttons g0;
  inv_difficulty : difficulty g = difficulty g0;
  inv_display : display_speed g = display_speed g0;
  inv_fast : fast_display_speed g = fast_display_speed g0;
  inv_score : 0 <= score g;
  inv_length : Z.of_nat (length (sequence g)) = score g + extra;
  inv_cells : num_buttons g = grown (max_buttons g0) (score g);
  inv_buttons : buttons g = layout (num_buttons g);
  inv_range : Forall (fun v => 0 <= v < num_buttons g) (sequence g)
}.

(** [extra] of the states in which each blocking call of a session sits. *)
Definition phase_extra (ph : Phase) : option Z :=
  match ph with
  | RoundStart | Growing => Some 0
  | Playback | Recall => Some 1
  | InTitle | InDifficulty | InGameOver => None
  end.

Definition session_cut (g0 : Game) (ph : Phase) (g : Game) : Prop :=
  match phase_extra ph with
  | Some extra => session_inv g0 extra g
  | None => False
  end.

(** What one highlight of the playback shows. *)
Definition frames : list Out := concat (repeat [Frame; Tick] (Z.to_nat HIGHLIGHT_ANIMATION_STEPS)).

Definition playback_of (hold : Z) (button_id : Z) : list Out :=
  [Highlight button_id] ++ frames ++ [Delay hold] ++
  [Unhighlight button_id] ++ frames ++ [Delay 100].

(** Blocking calls of one highlight: two animations and two delays. *)
Definition playback_calls : nat := 2 * Z.to_nat HIGHLIGHT_ANIMATION_STEPS + 2.

Definition delays_of (trace : list Out) : list Z :=
  flat_map (fun o => match o with Delay ms => [ms] | _ => [] end) trace.

(** The world after [n] blocking calls that left [shown] on the trace. *)
Definition advance (n : nat) (shown : list Out) (w : World) : World :=
  mkWorld (queue w ++ concat (firstn n (timeline w))) (skipn n (timeline w))
          (dice w) (out w ++ shown).

(** A call that, started in game [g], leaves the game alone and only lets
    time pass in phase [ph]. *)
Definition idles_at (ph : Phase) (m : M unit) (g : Game) : Prop :=
  forall w,
    post (fun ph' g' w' => ph' = ph /\ g' = g /\
                           (length (timeline w') <= length (timeline w))%nat)
         (fun _ _ => False) False (m g w)
         (fun _ g' w' => g' = g /\ (length (timeline w') <= length (timeline w))%nat).

Definition idles (ph : Phase) (m : M unit) : Prop := forall g, idles_at ph m g.

(** [g'] is [g] with another [user_sequence]. *)
Definition recalled (g g' : Game) : Prop :=
  exists trace, g' = set_user_sequence trace g.

(** Where the recall phase that started in [g], [w] can be cut, and what
    it leaves at [sys.exit()]. *)
Definition recall_cut (g : Game) (w : World) : Phase -> Game -> World -> Prop :=
  fun ph g' w' => ph = Recall /\ recalled g g' /\
                  (length (timeline w') <= length (timeline w))%nat.

Definition recall_exit (g : Game) : Game -> World -> Prop :=
  fun g' _ => recalled g g'.

(** A call that, given [n] more entries of timeline, returns after exactly
    [n] blocking calls with [shown] added to the trace and the game as it
    was. *)
Definition runs_for (n : nat) (shown : list Out) (m : M unit) (g : Game) : Prop :=
  forall w, (n <= length (timeline w))%nat -> m g w = Ok tt g (advance n shown w).

(** What the handlers of one poll of the recall phase maintain: [running]
    never goes back to true, an input once taken stays. *)
Definition recall_handled (g : Game) (w : World) (loc : Locals)
  : Locals -> Game -> World -> Prop :=
  fun loc' g' w' =>
    recalled g g' /\ (length (timeline w') <= length (timeline w))%nat /\
    (running loc' = true -> running loc = true) /\
    (user_input loc <> None -> user_input loc' <> None).

(** The settings a game holds once difficulty [d] was chosen. *)
Definition chosen (d : Difficulty) (g : Game) : Prop :=
  difficulty g = d /\
  display_speed g = match d with Normal => 500 | Fast => 100 end /\
  fast_display_speed g = match d with Normal => 100 | Fast => 50 end.

(** The delay during which a highlight stays lit, per difficulty. *)
Definition hold_delay (d : Difficulty) : Z :=
  match d with Normal => 500 | Fast => 50 end.

(** The scale controller in the words of the specification. *)
Definition should_grow (score current maximum : Z) : bool :=
  (0 <? score) && (score mod 5 =? 0) && (current <? maximum).

Definition grow (current maximum step : Z) : Z := Z.min (current + step) maximum.

(** The value [add_to_sequence] appends when the raw draw is [r]. *)
Definition appended_draw (g : Game) (r : Z) : Z :=
  match add_to_sequence g (mkWorld [] [] [r] []) with
  | Ok _ g' _ => last (sequence g') (-1)
  | _ => -1
  end.

(** Probabilities over the random source.  [span k len] is the run of [len]
    consecutive raw draws [k, k+1, ..., k+len-1], each of them equally
    likely; [chance space value t] is the probability that a draw taken
    from [space] gives the value [t], as a fraction. *)
Definition span (k len : Z) : list Z := map (Z.add k) (py_range len).

Definition chance (space : list Z) (value : Z -> Z) (t : Z) : Q :=
  Z.of_nat (count_occ Z.eq_dec (map value space) t)
  # Z.to_pos (Z.of_nat (length space)).

(** Scripts for the timeline: [quiet n] is [n] blocking calls during which
    nothing is posted; [click_on cells i] is a click with the mouse on the
    centre of button [i] of a grid of [cells] buttons. *)
Definition quiet (n : nat) : list (list Event) := repeat [] n.

Definition click_on (cells i : Z) : Event :=
  let r := Button.rect (button_at cells i) in
  MOUSEBUTTONDOWN (Rect.centerx r, Rect.centery r).

(** Blocking calls of one press in the recall phase: two animations and
    one delay. *)
Definition press_calls : nat := 2 * Z.to_nat HIGHLIGHT_ANIMATION_STEPS + 1.

(** A player who answers one step of the recall phase: the click is posted
    during the tick of an empty poll; the next poll handles it (the press)
    and ends with its own tick. *)
Definition answer (cells i : Z) : list (list Event) :=
  [click_on cells i] :: quiet press_calls ++ quiet 1.

(** Round [k] (sequence [steps] of length [k]) replayed without a
    mistake: the delay at the start, the playback, one answer per step. *)
Definition perfect_round (cells : Z) (steps : list Z) : list (list Event) :=
  quiet 1 ++ quiet (length steps * playback_calls) ++
  flat_map (answer cells) steps.

(** Five rounds replayed without a mistake on the four first cells, then
    two more blocking calls: the run is cut in the sixth playback. *)
Definition five_rounds : World :=
  mkWorld []
    (perfect_round 4 [1] ++ perfect_round 4 [1; 2] ++ perfect_round 4 [1; 2; 3] ++
     perfect_round 4 [1; 2; 3; 0] ++ perfect_round 4 [1; 2; 3; 0; 1] ++ quiet 2)
    [1; 2; 3; 0; 1; 5] [].

(** One round replayed without a mistake; the run is cut in the second
    playback. *)
Definition one_round : World :=
  mkWorld [] (perfect_round 4 [1] ++ quiet 2) [1; 2] [].

(** The first round, sequence [[1]]; while the highlight is played back
    the player clicks twice on button 0, and nothing afterwards: the
    first poll of the recall phase returns both clicks. *)
Definition two_clicks_in_one_poll : World :=
  mkWorld [] (quiet 1 ++ quiet 10 ++ [[click_on 4 0; click_on 4 0]] ++ quiet 200)
          [1] [].

(** The first round, sequence [[1]]; one click on button 0 during the
    playback, nothing during the recall phase. *)
Definition click_during_playback : World :=
  mkWorld [] (quiet 1 ++ quiet 10 ++ [[click_on 4 0]] ++ quiet 200) [1] [].

(** The same timeline without the click. *)
Definition no_click : World :=
  mkWorld [] (quiet 1 ++ quiet 10 ++ [[]] ++ quiet 200) [1] [].

(** What one press in the recall phase shows. *)
Definition press_shown (button_id : Z) : list Out :=
  [Highlight button_id] ++ frames ++ [Delay 100] ++ [Unhighlight button_id] ++ frames.


(** ** Vocabulary of the further properties *)

(** The edges of the state machine of [Game.run]. *)
Definition allowed (s s' : Screen) : Prop :=
  match s, s' with
  | TITLE, TITLE | TITLE, DIFFICULTY
  | DIFFICULTY, DIFFICULTY | DIFFICULTY, GAME
  | GAME, GAME | GAME, GAME_OVER
  | GAME_OVER, GAME_OVER | GAME_OVER, TITLE => True
  | _, _ => False
  end.

(** The game after lines 416-419 (Normal) or 424-427 (Fast). *)
Definition apply_choice (d : Difficulty) (g : Game) : Game :=
  mkGame GAME (buttons g) (sequence g) (user_sequence g) (score g) (num_buttons g)
         (max_buttons g) d
         (match d with Normal => 500 | Fast => 100 end)
         (match d with Normal => 100 | Fast => 50 end).

(** The fields that only a session writes. *)
Definition session_fields (g : Game) : list Button.t * list Z * list Z * Z * Z * Z :=
  (buttons g, sequence g, user_sequence g, score g, num_buttons g, max_buttons g).

(** What holds of the game object from [Game()] on, whatever the screen. *)
Record program_inv (g : Game) : Prop := {
  prog_max : max_buttons g = MAX_BUTTONS;
  prog_profile : chosen (difficulty g) g;
  prog_score : 0 <= score g;
  prog_cells : num_buttons g = grown MAX_BUTTONS (score g);
  prog_buttons : buttons g = layout (num_buttons g);
  prog_range : Forall (fun v => 0 <= v < num_buttons g) (sequence g);
  prog_length : Z.of_nat (length (sequence g)) = score g \/
                Z.of_nat (length (sequence g)) = score g + 1;
  prog_over : state g = GAME_OVER -> Z.of_nat (length (sequence g)) = score g + 1
}.

(** The game with [ids] appended to the user trace. *)
Definition appended (ids : list Z) (g : Game) : Game :=
  set_user_sequence (user_sequence g ++ ids) g.

(** [replayed steps trace ok]: what the recall phase can append to the
    user trace when asked for [steps].  For each step in turn a non-empty
    chunk of clicks is taken (all the clicks of the poll that answered
    it); while every click of the chunk equals the step the next step is
    asked; the first chunk with another click ends the phase with
    [ok = false]. *)
Inductive replayed : list Z -> list Z -> bool -> Prop :=
| replayed_all : replayed [] [] true
| replayed_step (v : Z) (steps chunk trace : list Z) (ok : bool) :
    chunk <> [] -> Forall (eq v) chunk -> replayed steps trace ok ->
    replayed (v :: steps) (chunk ++ trace) ok
| replayed_wrong (v : Z) (steps chunk : list Z) :
    chunk <> [] -> Exists (fun u => u <> v) chunk ->
    replayed (v :: steps) chunk false.

(** A value is the identifier of one of the buttons. *)
Definition names_button (bs : list Button.t) (v : Z) : Prop :=
  exists b, In b bs /\ Button.id b = v.

(** The highlights and un-highlights of a trace, in order, and the time
    its delays add up to. *)
Definition highlights_of (trace : list Out) : list Z :=
  flat_map (fun o => match o with Highlight v => [v] | _ => [] end) trace.

Definition unhighlights_of (trace : list Out) : list Z :=
  flat_map (fun o => match o with Unhighlight v => [v] | _ => [] end) trace.

Definition ticks_of (trace : list Out) : nat :=
  length (filter (fun o => match o with Tick => true | _ => false end) trace).

Definition delayed (trace : list Out) : Z := fold_right Z.add 0 (delays_of trace).

(** An event of a poll that is neither QUIT nor a click for which [hit]
    holds. *)
Definition misses (hit : Z * Z -> bool) (event : Event) : Prop :=
  match event with
  | QUIT => False
  | MOUSEBUTTONDOWN pos => hit pos = false
  | OTHER => True
  end.

(** ** class Button: colours and scale

    The fields of [Button] that the game logic never reads, and the
    methods that animate them.  Their arithmetic is Python's, on ints and
    floats; it is taken as a parameter: a type of numbers with the
    operations and comparisons the methods use and the float constants of
    the module, about which nothing is assumed. *)
Class Numbers : Type := {
  num : Type;
  of_int : Z -> num;
  HIGHLIGHT_ANIMATION_SPEED : num;      (* 0.03 *)
  HOVER_ANIMATION_SPEED : num;          (* 0.05 *)
  scale_1_0 : num;                      (* 1.0 *)
  scale_1_05 : num;                     (* 1.05 *)
  nadd : num -> num -> num;
  nsub : num -> num -> num;
  nmul : num -> num -> num;
  nabs : num -> num;
  nlt : num -> num -> bool;
  nle : num -> num -> bool;
  ngt : num -> num -> bool;
  nge : num -> num -> bool
}.

Section ButtonColours.
Context {numbers : Numbers}.

Definition Colour : Type := num * num * num.

Record Paint : Type := mkPaint {
  base_color : Colour;
  highlight_color : Colour;
  hover_color : Colour;
  current_color : Colour;
  target_color : Colour;
  animation_step : Z;
  animating : bool;
  scale : num;
  target_scale : num;
  scaling : bool
}.

Definition BUTTON_GREY : Colour := (of_int 70, of_int 70, of_int 70).
Definition BUTTON_HIGHLIGHT : Colour := (of_int 50, of_int 205, of_int 50).
Definition BUTTON_HOVER : Colour := (of_int 90, of_int 90, of_int 90).

(** [Button.__init__], lines 67-78. *)
Definition new_paint : Paint :=
  mkPaint BUTTON_GREY BUTTON_HIGHLIGHT BUTTON_HOVER BUTTON_GREY BUTTON_GREY
          0 false scale_1_0 scale_1_0 false.

Definition start_highlight (p : Paint) : Paint :=
  mkPaint (base_color p) (highlight_color p) (hover_color p) (current_color p)
          (highlight_color p) 0 true (scale p) (target_scale p) (scaling p).

Definition start_unhighlight (p : Paint) : Paint :=
  mkPaint (base_color p) (highlight_color p) (hover_color p) (current_color p)
          (base_color p) 0 true (scale p) (target_scale p) (scaling p).

Definition start_hover (p : Paint) : Paint :=
  mkPaint (base_color p) (highlight_color p) (hover_color p) (current_color p)
          (hover_color p) 0 (animating p) (scale p) scale_1_05 true.

Definition end_hover (p : Paint) : Paint :=
  mkPaint (base_color p) (highlight_color p) (hover_color p) (current_color p)
          (base_color p) 0 (animating p) (scale p) scale_1_0 true.

(** Lines 139-160 of [Button.update]. *)
Definition update_colour (p : Paint) : Paint :=
  if animating p then
    let '(r, g, b) := current_color p in
    let '(tr, tg, tb) := target_color p in
    let dr := nmul (nsub tr r) HIGHLIGHT_ANIMATION_SPEED in
    let dg := nmul (nsub tg g) HIGHLIGHT_ANIMATION_SPEED in
    let db := nmul (nsub tb b) HIGHLIGHT_ANIMATION_SPEED in
    let moved := (nadd r dr, nadd g dg, nadd b db) in
    let step := animation_step p + 1 in
    if (nlt (nabs (nsub r tr)) (of_int 1) && nlt (nabs (nsub g tg)) (of_int 1)
        && nlt (nabs (nsub b tb)) (of_int 1))
       || (HIGHLIGHT_ANIMATION_STEPS <=? step)
    then mkPaint (base_color p) (highlight_color p) (hover_color p) (target_color p)
                 (target_color p) step false (scale p) (target_scale p) (scaling p)
    else mkPaint (base_color p) (highlight_color p) (hover_color p) moved
                 (target_color p) step true (scale p) (target_scale p) (scaling p)
  else p.

Definition with_scale (s : num) (still : bool) (p : Paint) : Paint :=
  mkPaint (base_color p) (highlight_color p) (hover_color p) (current_color p)
          (target_color p) (animation_step p) (animating p) s (target_scale p) still.

(** Lines 163-173 of [Button.update]. *)
Definition update_scale (p : Paint) : Paint :=
  if scaling p then
    if nlt (scale p) (target_scale p) then
      let s := nadd (scale p) HOVER_ANIMATION_SPEED in
      if nge s (target_scale p) then with_scale (target_scale p) false p
      else with_scale s true p
    else if ngt (scale p) (target_scale p) then
      let s := nsub (scale p) HOVER_ANIMATION_SPEED in
      if nle s (target_scale p) then with_scale (target_scale p) false p
      else with_scale s true p
    else p
  else p.

Definition update (p : Paint) : Paint := update_scale (update_colour p).

End ButtonColours.

(** Integers with their own arithmetic as numbers, to run the methods on. *)
Definition integer_numbers : Numbers :=
  @Build_Numbers Z (fun z => z) 0 0 1 1 Z.add Z.sub Z.mul Z.abs Z.ltb Z.leb Z.gtb Z.geb.

(** ** The random draws of a session *)

(** The environment part of an outcome, when there is one. *)
Definition final_world {A : Type} (o : Outcome A) : option World :=
  match o with
  | Ok _ _ w | Exit _ w | Raise _ _ w | Cut _ _ w => Some w
  | OutOfFuel => None
  end.

(** A call that draws no random number and leaves the sequence as it is,
    however it ends. *)
Definition draw_free {A : Type} (m : M A) : Prop :=
  forall g w,
    match m g w with
    | Ok _ g' w' | Exit g' w' | Raise _ g' w' | Cut _ g' w' =>
        sequence g' = sequence g /\ dice w' = dice w
    | OutOfFuel => True
    end.

(** The first [k] elements of the sequence of a session whose random
    source gives the raw draws [source]: element [j] is draw [j] reduced
    modulo the cell count of round [j + 1], reached at score [j]. *)
Definition draws (maximum : Z) (source : list Z) (k : nat) : list Z :=
  map (fun j => nth j source 0 mod grown maximum (Z.of_nat j)) (seq 0 k).

(** The sequence is made of the draws used so far. *)
Definition drawn_so_far (maximum : Z) (source : list Z) (g : Game) (w : World) : Prop :=
  sequence g = draws maximum source (length (sequence g)) /\
  dice w = skipn (length (sequence g)) source.
(** * Properties *)

Unset Implicit Arguments.

#[local] Arguments create_buttons : simpl never.
#[local] Arguments layout : simpl never.
#[local] Arguments py_index : simpl never.

(** ** The grid of [create_buttons] *)

Lemma fold_left_append {A B : Type} (f : A -> B) (l : list A) (init : list B) :
  fold_left (fun acc i => acc ++ [f i]) l init = init ++ map f l.
Proof.
  revert init; induction l as [|a l IH]; intros init; simpl.
  - now rewrite app_nil_r.
  - rewrite IH, <- app_assoc. reflexivity.
Qed.

Lemma create_buttons_layout (n : Z) : 0 <= n -> create_buttons n = Returns (layout n).
Proof.
  intros Hn. unfold create_buttons, layout.
  destruct (n <? 0) eqn:E; [apply Z.ltb_lt in E; lia|].
  now rewrite fold_left_append.
Qed.

Lemma create_buttons_negative (n : Z) : n < 0 -> create_buttons n = Raises TypeError.
Proof.
  intros Hn. unfold create_buttons.
  destruct (n <? 0) eqn:E; [reflexivity | apply Z.ltb_ge in E; lia].
Qed.

Lemma py_range_length (n : Z) : length (py_range n) = Z.to_nat n.
Proof. unfold py_range. now rewrite length_map, length_seq. Qed.

Lemma py_range_nth (n : Z) (i : nat) :
  (i < Z.to_nat n)%nat -> nth_error (py_range n) i = Some (Z.of_nat i).
Proof.
  intros Hi. unfold py_range.
  rewrite nth_error_map, nth_error_seq.
  destruct (Nat.ltb_spec i (Z.to_nat n)); [reflexivity | lia].
Qed.

Lemma py_range_In (n v : Z) : In v (py_range n) <-> 0 <= v < n.
Proof.
  unfold py_range. rewrite in_map_iff. split.
  - intros (k & <- & Hk). apply in_seq in Hk. lia.
  - intros Hv. exists (Z.to_nat v). split; [lia | apply in_seq; lia].
Qed.

Lemma layout_length (n : Z) : length (layout n) = Z.to_nat n.
Proof. unfold layout. now rewrite length_map, py_range_length. Qed.

Lemma layout_index (n i : Z) :
  0 <= i < n -> py_index (layout n) i = Some (button_at n i).
Proof.
  intros Hi. unfold py_index. rewrite layout_length.
  destruct (0 <=? i) eqn:E1; [|apply Z.leb_gt in E1; lia].
  destruct (i <? Z.of_nat (Z.to_nat n)) eqn:E2; [|apply Z.ltb_ge in E2; lia].
  simpl. unfold layout. rewrite nth_error_map, py_range_nth by lia.
  simpl. now rewrite Z2Nat.id by lia.
Qed.

Lemma py_index_bounds {A : Type} (l : list A) (i : Z) (a : A) :
  py_index l i = Some a -> - Z.of_nat (length l) <= i < Z.of_nat (length l).
Proof.
  unfold py_index. intros H.
  destruct ((0 <=? i) && (i <? Z.of_nat (length l))) eqn:E1.
  - apply andb_true_iff in E1 as [E1 E2].
    apply Z.leb_le in E1. apply Z.ltb_lt in E2. lia.
  - destruct ((- Z.of_nat (length l) <=? i) && (i <? 0)) eqn:E2; [|discriminate].
    apply andb_true_iff in E2 as [E2 E3].
    apply Z.leb_le in E2. apply Z.ltb_lt in E3. lia.
Qed.

(** The columns are the least [c] with [c * c >= n]; the rows are the least
    [r] with [c * r >= n]. *)
Lemma grid_size_spec (n : Z) :
  1 <= n ->
  let c := grid_cols n in
  let r := grid_rows n in
  1 <= r /\ r <= c <= r + 1 /\
  (c - 1) * (c - 1) < n <= c * c /\
  c * (r - 1) < n <= c * r.
Proof.
  intros Hn. unfold grid_cols, grid_rows, grid_size. cbv zeta.
  pose proof (Z.sqrt_spec n ltac:(lia)) as Hs.
  pose proof (Z.sqrt_nonneg n) as Hs0.
  set (s := Z.sqrt n) in *. unfold Z.succ in Hs.
  assert (1 <= s) by (destruct (Z.eq_dec s 0) as [E|E]; [rewrite E in Hs; lia | lia]).
  replace (s ^ 2) with (s * s) by ring.
  destruct (s * s <? n) eqn:E1;
    [apply Z.ltb_lt in E1 | apply Z.ltb_ge in E1].
  - destruct ((s + 1) * s <? n) eqn:E2;
      [apply Z.ltb_lt in E2 | apply Z.ltb_ge in E2]; simpl; nia.
  - destruct (s * s <? n) eqn:E2;
      [apply Z.ltb_lt in E2 | apply Z.ltb_ge in E2]; simpl; nia.
Qed.

Lemma grid_cols_sqrt_up (n : Z) : 1 <= n -> grid_cols n = Z.sqrt_up n.
Proof.
  intros Hn. destruct (grid_size_spec n Hn) as (Hr & Hc & Hsq & _).
  symmetry. apply Z.sqrt_up_unique; [lia|].
  unfold Z.pred. lia.
Qed.

Lemma button_at_overlap (n i j : Z) :
  1 <= n -> 0 <= i -> 0 <= j -> i <> j ->
  Rect.overlaps (Button.rect (button_at n i)) (Button.rect (button_at n j)) = false.
Proof.
  intros Hn Hi Hj Hij.
  destruct (grid_size_spec n Hn) as (Hr & Hc & _ & _).
  set (c := grid_cols n) in *.
  assert (Hcpos : 0 < c) by lia.
  pose proof (Z.div_mod i c ltac:(lia)) as Di.
  pose proof (Z.div_mod j c ltac:(lia)) as Dj.
  pose proof (Z.mod_pos_bound i c Hcpos) as Mi.
  pose proof (Z.mod_pos_bound j c Hcpos) as Mj.
  unfold Rect.overlaps, button_at. cbn [Button.rect Rect.x Rect.y Rect.width Rect.height].
  fold c. unfold BUTTON_SIZE, BUTTON_PADDING.
  set (sx := fst (grid_start n)). set (sy := snd (grid_start n)).
  set (ci := i mod c) in *. set (cj := j mod c) in *.
  set (ri := i / c) in *. set (rj := j / c) in *.
  destruct (Z.eq_dec ci cj) as [Ec|Ec].
  - assert (ri <> rj) by (intros E; apply Hij; rewrite Di, Dj, Ec, E; reflexivity).
    apply andb_false_iff.
    destruct (Z_lt_le_dec ri rj).
    + right. apply Z.ltb_ge. lia.
    + left. apply andb_false_iff. right. apply Z.ltb_ge. lia.
  - destruct (Z_lt_le_dec ci cj).
    + apply andb_false_iff. left. apply andb_false_iff. left.
      apply andb_false_iff. right. apply Z.ltb_ge. lia.
    + apply andb_false_iff. left. apply andb_false_iff. left.
      apply andb_false_iff. left. apply Z.ltb_ge. lia.
Qed.

(** ** Rules for outcomes *)

Section Rules.
Context {A : Type}.
Variable I : Phase -> Game -> World -> Prop.
Variable X : Game -> World -> Prop.
Variable F : Prop.

Lemma post_bind {B : Type} (m : M B) (k : B -> M A) g w Q :
  post I X F (m g w) (fun b g' w' => post I X F (k b g' w') Q) ->
  post I X F (bind m k g w) Q.
Proof. unfold bind, post. destruct (m g w); auto. Qed.

Lemma post_mono (o : Outcome A) (I' : Phase -> Game -> World -> Prop)
      (X' : Game -> World -> Prop) (F' : Prop) Q Q' :
  post I' X' F' o Q' ->
  (forall ph g w, I' ph g w -> I ph g w) ->
  (forall g w, X' g w -> X g w) ->
  (F' -> F) ->
  (forall a g w, Q' a g w -> Q a g w) ->
  post I X F o Q.
Proof. unfold post. destruct o; auto. Qed.

Lemma post_elapse ph g w (Q : unit -> Game -> World -> Prop) :
  I ph g w ->
  (forall posted later, timeline w = posted :: later ->
     Q tt g (mkWorld (queue w ++ posted) later (dice w) (out w))) ->
  post I X F (elapse ph g w) Q.
Proof.
  intros HI HQ. unfold elapse, post.
  destruct (timeline w) as [|posted later]; [exact HI | now apply HQ].
Qed.
End Rules.


Section MoreRules.
Context {A : Type}.
Variable I : Phase -> Game -> World -> Prop.
Variable X : Game -> World -> Prop.
Variable F : Prop.

Lemma post_idles ph (m : M unit) (k : unit -> M A) g w Q :
  idles_at ph m g ->
  (forall w', (length (timeline w') <= length (timeline w))%nat -> I ph g w') ->
  (forall w', (length (timeline w') <= length (timeline w))%nat ->
              post I X F (k tt g w') Q) ->
  post I X F (bind m k g w) Q.
Proof.
  intros Hm HI HQ. apply post_bind.
  eapply post_mono; [apply (Hm w) | | | | ]; cbv beta.
  - intros ph' g' w' (-> & -> & Hle). now apply HI.
  - intros ? ? [].
  - intros [].
  - intros [] g' w' (-> & Hle). now apply HQ.
Qed.
End MoreRules.

Lemma idles_at_bind ph (m1 m2 : M unit) g :
  idles_at ph m1 g -> idles_at ph m2 g -> idles_at ph (m1;; m2) g.
Proof.
  intros H1 H2 w. eapply post_idles; eauto.
  intros w' Hle. eapply post_mono; [apply (H2 w') | | | | ]; cbv beta.
  - intros ph' g' w'' (-> & -> & Hle'). repeat split; lia.
  - auto.
  - auto.
  - intros [] g' w'' (-> & Hle'). split; [reflexivity | lia].
Qed.

Lemma idles_at_each {B : Type} ph (l : list B) (body : B -> M unit) g :
  (forall b, In b l -> idles_at ph (body b) g) -> idles_at ph (for_each l body) g.
Proof.
  induction l as [|b l IH]; intros Hb; simpl.
  - intros w. simpl. auto.
  - apply idles_at_bind; [apply Hb; now left | apply IH].
    intros b' Hb'. apply Hb. now right.
Qed.

Lemma idles_emit ph o : idles ph (emit o).
Proof. intros g w. simpl. auto. Qed.

Lemma idles_elapse ph : idles ph (elapse ph).
Proof.
  intros g w. apply post_elapse; [auto|].
  intros posted later E. simpl. rewrite E. simpl. auto.
Qed.

Lemma idles_tick ph : idles ph (tick ph).
Proof. intros g. apply idles_at_bind; [apply idles_emit | apply idles_elapse]. Qed.

Lemma idles_delay ph ms : idles ph (delay ph ms).
Proof. intros g. apply idles_at_bind; [apply idles_emit | apply idles_elapse]. Qed.

Lemma idles_frame ph : idles ph (frame ph).
Proof. intros g. apply idles_at_bind; [apply idles_emit | apply idles_tick]. Qed.

Lemma idles_animation ph : idles ph (animation ph).
Proof. intros g. apply idles_at_each. intros _ _. apply idles_frame. Qed.

Section Blocking.
Context {A : Type}.
Variable I : Phase -> Game -> World -> Prop.
Variable X : Game -> World -> Prop.
Variable F : Prop.

(** A blocking call uses up one entry of the timeline. *)
Lemma post_blocking ph o (k : unit -> M A) g w Q :
  (forall w', (length (timeline w') <= length (timeline w))%nat -> I ph g w') ->
  (forall w', (length (timeline w') < length (timeline w))%nat ->
              post I X F (k tt g w') Q) ->
  post I X F (bind (emit o;; elapse ph) k g w) Q.
Proof.
  intros HI HQ. unfold bind, emit, elapse.
  destruct w as [q [|posted later] d shown]; simpl in *.
  - apply HI. auto.
  - apply HQ. simpl. lia.
Qed.
End Blocking.

(** ** The recall phase *)

Lemma recalled_refl g : recalled g g.
Proof. exists (user_sequence g). now destruct g. Qed.

Lemma recalled_trans g1 g2 g3 : recalled g1 g2 -> recalled g2 g3 -> recalled g1 g3.
Proof. intros [t1 ->] [t2 ->]. now exists t2. Qed.

Lemma recalled_sequence g g' : recalled g g' -> sequence g' = sequence g.
Proof. now intros [t ->]. Qed.

Lemma recalled_buttons g g' : recalled g g' -> buttons g' = buttons g.
Proof. now intros [t ->]. Qed.

Lemma recalled_inv g0 extra g g' :
  recalled g g' -> session_inv g0 extra g -> session_inv g0 extra g'.
Proof. intros [t ->] []. now constructor. Qed.

Create HintDb recall.
#[local] Hint Resolve recalled_refl recalled_trans : recall.

Lemma press_spec button idx loc g w expected :
  py_index (sequence g) idx = Some expected ->
  post (fun ph g' w' => ph = Recall /\ g' = g /\
                        (length (timeline w') <= length (timeline w))%nat)
       (fun _ _ => False) False
       (press button idx loc g w)
       (fun loc' g' w' =>
          g' = set_user_sequence (user_sequence g ++ [Button.id button]) g /\
          (length (timeline w') <= length (timeline w))%nat /\
          loc' = mkLocals (Some (Button.id button))
                          (if Button.id button =? expected then running loc else false)).
Proof.
  intros Hidx. unfold press.
  eapply post_idles; [apply idles_emit | auto | intros w1 H1].
  eapply post_idles; [apply idles_animation | intros; repeat split; lia | intros w2 H2].
  eapply post_idles; [apply idles_delay | intros; repeat split; lia | intros w3 H3].
  eapply post_idles; [apply idles_emit | intros; repeat split; lia | intros w4 H4].
  eapply post_idles; [apply idles_animation | intros; repeat split; lia | intros w5 H5].
  unfold bind, modify, get. cbn [sequence set_user_sequence]. rewrite Hidx.
  destruct (Button.id button =? expected); simpl; repeat split; lia.
Qed.

Section Recall.
Variables (idx expected : Z).

Lemma for_buttons_spec bs pos loc g w :
  py_index (sequence g) idx = Some expected ->
  post (recall_cut g w) (recall_exit g) False (for_buttons bs pos idx loc g w) (recall_handled g w loc).
Proof.
  intros Hidx. induction bs as [|button rest IH]; simpl.
  - repeat split; auto with recall.
  - destruct (Button.is_clicked button pos); [|exact IH].
    eapply post_mono; [apply (press_spec button idx loc g w expected Hidx) | | | | ]; cbv beta.
    + intros ph g' w' (-> & -> & Hle). repeat split; auto with recall.
    + intros ? ? [].
    + auto.
    + intros loc' g' w' (-> & Hle & ->). repeat split; simpl.
      * now eexists.
      * exact Hle.
      * destruct (Button.id button =? expected); [auto | discriminate].
      * discriminate.
Qed.

Lemma for_events_spec batch loc g w :
  py_index (sequence g) idx = Some expected ->
  post (recall_cut g w) (recall_exit g) False (for_events batch idx loc g w) (recall_handled g w loc).
Proof.
  revert loc g w. induction batch as [|event rest IH]; intros loc g w Hidx; simpl.
  - repeat split; auto with recall.
  - apply post_bind. destruct event as [|pos|].
    + simpl. apply recalled_refl.
    + unfold bind at 1, get.
      eapply post_mono; [apply (for_buttons_spec (buttons g) pos loc g w Hidx) | | | | ];
        cbv beta; auto.
      intros loc1 g1 w1 (Hg1 & Hle1 & Hrun1 & Hin1).
      assert (Hidx1 : py_index (sequence g1) idx = Some expected)
        by now rewrite (recalled_sequence _ _ Hg1).
      eapply post_mono; [apply (IH loc1 g1 w1 Hidx1) | | | | ]; cbv beta; auto.
      * intros ph g' w' (-> & Hg' & Hle). repeat split; eauto with recall. lia.
      * intros g' w' Hg'. unfold recall_exit in *. eauto with recall.
      * intros loc2 g2 w2 (Hg2 & Hle2 & Hrun2 & Hin2).
        repeat split; eauto with recall. lia.
    + simpl. apply IH, Hidx.
Qed.

Lemma wait_input_spec fuel loc g w :
  py_index (sequence g) idx = Some expected ->
  post (recall_cut g w) (recall_exit g) (fuel <= length (timeline w))%nat
       (wait_input fuel idx loc g w)
       (fun loc' g' w' =>
          recalled g g' /\ (length (timeline w') < length (timeline w))%nat /\
          (running loc' = true -> running loc = true) /\
          user_input loc' <> None).
Proof.
  revert loc g w. induction fuel as [|fuel IH]; intros loc g w Hidx.
  - simpl. lia.
  - cbn [wait_input]. unfold bind at 1, event_get.
    set (w0 := mkWorld [] (timeline w) (dice w) (out w)).
    apply post_bind.
    eapply post_mono; [apply (for_events_spec (queue w) loc g w0 Hidx) | | | | ];
      cbv beta; auto.
    + intros [].
    + intros loc1 g1 w1 (Hg1 & Hle1 & Hrun1 & Hin1). simpl in Hle1.
      apply post_blocking.
      * intros w' Hle. repeat split; auto. lia.
      * intros w2 Hlt2.
        destruct (user_input loc1) eqn:Ein.
        -- simpl. repeat split; auto; [lia | congruence].
        -- assert (Hidx1 : py_index (sequence g1) idx = Some expected)
             by now rewrite (recalled_sequence _ _ Hg1).
           eapply post_mono; [apply (IH loc1 g1 w2 Hidx1) | | | | ]; cbv beta.
           ++ intros ph g' w' (-> & Hg' & Hle). repeat split; eauto with recall. lia.
           ++ intros g' w' Hg'. unfold recall_exit in *. eauto with recall.
           ++ lia.
           ++ intros loc2 g2 w3 (Hg2 & Hlt3 & Hrun2 & Hin2).
              repeat split; eauto with recall. lia.
Qed.

End Recall.

Lemma for_idx_spec fuel idxs running0 g w :
    Forall (fun i => exists e, py_index (sequence g) i = Some e) idxs ->
    post (recall_cut g w) (recall_exit g) (fuel <= length (timeline w))%nat
         (for_idx fuel idxs running0 g w)
         (fun _ g' w' =>
            recalled g g' /\ (length (timeline w') <= length (timeline w))%nat).
  Proof.
    revert running0 g w. induction idxs as [|i rest IH]; intros running0 g w Hall.
    - simpl. split; auto with recall.
    - inversion Hall as [|? ? [e He] Hrest]; subst.
      cbn [for_idx]. apply post_bind.
      eapply post_mono;
        [apply (wait_input_spec i e fuel (mkLocals None running0) g w He) | | | | ];
        cbv beta; auto.
      intros loc1 g1 w1 (Hg1 & Hlt1 & _ & _).
      destruct (negb (running loc1)).
      + simpl. split; [auto | lia].
      + assert (Hall1 : Forall (fun i => exists e, py_index (sequence g1) i = Some e) rest)
          by now rewrite (recalled_sequence _ _ Hg1).
        eapply post_mono; [apply (IH (running loc1) g1 w1 Hall1) | | | | ]; cbv beta.
        * intros ph g' w' (-> & Hg' & Hle). repeat split; eauto with recall. lia.
        * intros g' w' Hg'. unfold recall_exit in *. eauto with recall.
        * lia.
        * intros r g2 w2 (Hg2 & Hle2). split; eauto with recall. lia.
  Qed.

(** ** The playback phase *)

Lemma firstn_plus {A : Type} (n m : nat) (l : list A) :
  firstn (n + m) l = firstn n l ++ firstn m (skipn n l).
Proof.
  revert l; induction n as [|n IH]; intros l; simpl; [reflexivity|].
  destruct l as [|a l]; simpl.
  - now rewrite firstn_nil.
  - now rewrite IH.
Qed.

Lemma advance_advance n1 s1 n2 s2 w :
  advance n2 s2 (advance n1 s1 w) = advance (n1 + n2) (s1 ++ s2) w.
Proof.
  unfold advance. simpl.
  rewrite firstn_plus, concat_app, skipn_skipn, !app_assoc.
  now rewrite (Nat.add_comm n2 n1).
Qed.

Lemma advance_timeline n s w :
  length (timeline (advance n s w)) = (length (timeline w) - n)%nat.
Proof. unfold advance. simpl. apply length_skipn. Qed.

Lemma runs_for_emit o g : runs_for 0 [o] (emit o) g.
Proof.
  intros w _. unfold emit, advance. simpl. now rewrite app_nil_r.
Qed.

Lemma runs_for_elapse ph g : runs_for 1 [] (elapse ph) g.
Proof.
  intros w Hw. unfold elapse, advance.
  destruct (timeline w) as [|posted later]; simpl in *; [lia|].
  now rewrite !app_nil_r.
Qed.

Lemma runs_for_bind n1 s1 n2 s2 (m1 m2 : M unit) g :
  runs_for n1 s1 m1 g -> runs_for n2 s2 m2 g ->
  runs_for (n1 + n2) (s1 ++ s2) (m1;; m2) g.
Proof.
  intros H1 H2 w Hw. unfold bind. rewrite (H1 w) by lia.
  assert (Hw2 : (n2 <= length (timeline (advance n1 s1 w)))%nat)
    by (rewrite advance_timeline; lia).
  rewrite (H2 _ Hw2). now rewrite advance_advance.
Qed.

Lemma runs_for_ret g : runs_for 0 [] (ret tt) g.
Proof.
  intros [q t d shown] _. unfold ret, advance. simpl. now rewrite !app_nil_r.
Qed.

Lemma runs_for_each {B : Type} n (shown : B -> list Out) (body : B -> M unit) l g :
  (forall b, In b l -> runs_for n (shown b) (body b) g) ->
  runs_for (length l * n) (flat_map shown l) (for_each l body) g.
Proof.
  induction l as [|b l IH]; intros Hb; simpl.
  - apply runs_for_ret.
  - apply runs_for_bind; [apply Hb; now left | apply IH].
    intros b' Hb'. apply Hb. now right.
Qed.

Lemma runs_for_tick ph g : runs_for 1 [Tick] (tick ph) g.
Proof. apply (runs_for_bind 0 [Tick] 1 []); [apply runs_for_emit | apply runs_for_elapse]. Qed.

Lemma runs_for_delay ph ms g : runs_for 1 [Delay ms] (delay ph ms) g.
Proof. apply (runs_for_bind 0 [Delay ms] 1 []); [apply runs_for_emit | apply runs_for_elapse]. Qed.

Lemma runs_for_frame ph g : runs_for 1 [Frame; Tick] (frame ph) g.
Proof. apply (runs_for_bind 0 [Frame] 1 [Tick]); [apply runs_for_emit | apply runs_for_tick]. Qed.

Lemma runs_for_animation ph g :
  runs_for (Z.to_nat HIGHLIGHT_ANIMATION_STEPS) frames (animation ph) g.
Proof.
  unfold animation.
  pose proof (runs_for_each 1 (fun _ : Z => [Frame; Tick]) (fun _ => frame ph)
                (py_range HIGHLIGHT_ANIMATION_STEPS) g
                (fun _ _ => runs_for_frame ph g)) as H.
  rewrite py_range_length, Nat.mul_1_r in H.
  replace frames with (flat_map (fun _ : Z => [Frame; Tick]) (py_range HIGHLIGHT_ANIMATION_STEPS));
    [exact H | reflexivity].
Qed.

(** One highlight of the playback, for a button that exists. *)
Lemma runs_for_highlight g button_id button :
  py_index (buttons g) button_id = Some button ->
  runs_for playback_calls (playback_of (highlight_delay g) (Button.id button))
    (g' <- get;;
     match py_index (buttons g') button_id with
     | None => raise IndexError
     | Some button =>
         emit (Highlight (Button.id button));;
         animation Playback;;
         delay Playback (highlight_delay g');;
         emit (Unhighlight (Button.id button));;
         animation Playback;;
         delay Playback 100
     end) g.
Proof.
  intros Hb w Hw. unfold bind at 1, get. rewrite Hb.
  revert w Hw. change (runs_for playback_calls
    (playback_of (highlight_delay g) (Button.id button))
    (emit (Highlight (Button.id button));;
     animation Playback;;
     delay Playback (highlight_delay g);;
     emit (Unhighlight (Button.id button));;
     animation Playback;;
     delay Playback 100) g).
  set (n := Z.to_nat HIGHLIGHT_ANIMATION_STEPS).
  apply (runs_for_bind 0 [Highlight (Button.id button)] (n + (1 + (0 + (n + 1))))).
  { apply runs_for_emit. }
  apply (runs_for_bind n frames (1 + (0 + (n + 1)))).
  { apply runs_for_animation. }
  apply (runs_for_bind 1 [Delay (highlight_delay g)] (0 + (n + 1))).
  { apply runs_for_delay. }
  apply (runs_for_bind 0 [Unhighlight (Button.id button)] (n + 1)).
  { apply runs_for_emit. }
  apply (runs_for_bind n frames 1).
  { apply runs_for_animation. }
  apply runs_for_delay.
Qed.

(** The whole playback on a grid that holds every element of the
    sequence: as many highlights as the sequence is long, nothing taken
    from the event queue, the game untouched. *)
Lemma animate_sequence_runs g :
  buttons g = layout (num_buttons g) ->
  Forall (fun v => 0 <= v < num_buttons g) (sequence g) ->
  runs_for (length (sequence g) * playback_calls)
           (flat_map (playback_of (highlight_delay g)) (sequence g))
           animate_sequence g.
Proof.
  intros Hb Hall w Hw. unfold animate_sequence, bind at 1, get.
  apply runs_for_each; [|exact Hw].
  intros v Hv. rewrite Forall_forall in Hall. specialize (Hall v Hv).
  pose proof (layout_index (num_buttons g) v Hall) as Hidx. rewrite <- Hb in Hidx.
  apply (runs_for_highlight g v (button_at (num_buttons g) v) Hidx).
Qed.

(** ** A session: [reset_game], the rounds, the growth of the grid *)

Lemma reset_game_runs g w :
  reset_game g w =
  Ok tt (mkGame (state g) (layout 4) [] [] 0 4 (max_buttons g) (difficulty g)
                (display_speed g) (fast_display_speed g)) w.
Proof. reflexivity. Qed.

Lemma grown_bounds maximum s : 4 <= grown maximum s.
Proof. unfold grown. lia. Qed.

Lemma grown_monotone maximum s s' : 0 <= s <= s' -> grown maximum s <= grown maximum s'.
Proof.
  intros H. unfold grown.
  assert (s / 5 <= s' / 5) by (apply Z.div_le_mono; lia). lia.
Qed.

Lemma grown_step maximum s :
  0 <= s ->
  grown maximum (s + 1) =
  if ((s + 1) mod 5 =? 0) && (grown maximum s <? maximum)
  then Z.min (grown maximum s + 2) maximum
  else grown maximum s.
Proof.
  intros Hs. unfold grown.
  destruct ((s + 1) mod 5 =? 0) eqn:E1;
    [apply Z.eqb_eq in E1 | apply Z.eqb_neq in E1]; cbn [andb].
  - assert (H : (s + 1) / 5 = s / 5 + 1) by (Z.div_mod_to_equations; lia).
    assert (Hk : 0 <= s / 5) by (apply Z.div_pos; lia).
    rewrite H. generalize dependent (s / 5). intros k _ Hk.
    destruct (Z.max 4 (Z.min maximum (4 + 2 * k)) <? maximum) eqn:E2;
      [apply Z.ltb_lt in E2 | apply Z.ltb_ge in E2]; lia.
  - assert (H : (s + 1) / 5 = s / 5) by (Z.div_mod_to_equations; lia).
    now rewrite H.
Qed.

Lemma session_inv_reset g :
  session_inv g 0
    (mkGame (state g) (layout 4) [] [] 0 4 (max_buttons g) (difficulty g)
            (display_speed g) (fast_display_speed g)).
Proof.
  constructor; simpl; try reflexivity; try lia.
  - unfold grown. simpl. lia.
  - constructor.
Qed.

(** [add_buttons(count=2)]: two guarded increments, then a new grid. *)
Lemma add_buttons_runs g w :
  0 <= num_buttons g ->
  let cells := Z.max (num_buttons g) (Z.min (num_buttons g + 2) (max_buttons g)) in
  add_buttons 2 g w = Ok tt (set_buttons (layout cells) (set_num_buttons cells g)) w.
Proof.
  intros Hn cells. unfold add_buttons, py_range. simpl for_each.
  unfold bind, get, modify, ret. simpl.
  destruct (num_buttons g <? max_buttons g) eqn:E1; simpl.
  - apply Z.ltb_lt in E1.
    destruct (num_buttons g + 1 <? max_buttons g) eqn:E2;
      [apply Z.ltb_lt in E2 | apply Z.ltb_ge in E2]; simpl.
    + rewrite create_buttons_layout by lia. simpl.
      replace cells with (num_buttons g + 1 + 1) by (unfold cells; lia). reflexivity.
    + rewrite create_buttons_layout by lia. simpl.
      replace cells with (num_buttons g + 1) by (unfold cells; lia). reflexivity.
  - rewrite E1. simpl. apply Z.ltb_ge in E1.
    rewrite create_buttons_layout by lia. simpl.
    replace cells with (num_buttons g) by (unfold cells; lia). now destruct g.
Qed.

Lemma add_to_sequence_runs g w :
  1 <= num_buttons g ->
  add_to_sequence g w =
  Ok tt (set_sequence (sequence g ++ [hd 0 (dice w) mod num_buttons g]) g)
     (mkWorld (queue w) (timeline w) (tl (dice w)) (out w)).
Proof.
  intros Hn. unfold add_to_sequence, bind, get, randint, modify.
  destruct (num_buttons g - 1 <? 0) eqn:E; [apply Z.ltb_lt in E; lia|].
  simpl. replace (num_buttons g - 1 - 0 + 1) with (num_buttons g) by lia.
  reflexivity.
Qed.

Lemma session_inv_append g0 g v :
  session_inv g0 0 g -> 0 <= v < num_buttons g ->
  session_inv g0 1 (set_sequence (sequence g ++ [v]) g).
Proof.
  intros [] Hv. constructor; simpl; auto.
  - rewrite length_app. simpl. lia.
  - apply Forall_app. split; [assumption | now constructor].
Qed.

Lemma session_inv_score g0 g :
  session_inv g0 1 g ->
  ((score g + 1) mod 5 =? 0) = false \/ (num_buttons g <? max_buttons g) = false ->
  session_inv g0 0 (set_score (score g + 1) g).
Proof.
  intros [] Hno. constructor; simpl; auto; try lia.
  rewrite grown_step by lia. rewrite <- inv_cells0, <- inv_max0.
  destruct Hno as [-> | ->]; [reflexivity | now rewrite andb_false_r].
Qed.

Lemma session_inv_grow g0 g :
  session_inv g0 1 g ->
  ((score g + 1) mod 5 =? 0) = true -> (num_buttons g <? max_buttons g) = true ->
  let cells := Z.max (num_buttons g) (Z.min (num_buttons g + 2) (max_buttons g)) in
  session_inv g0 0
    (set_buttons (layout cells) (set_num_buttons cells (set_score (score g + 1) g))).
Proof.
  intros [] E1 E2 cells.
  assert (Hcells : cells = grown (max_buttons g0) (score g + 1)).
  { rewrite grown_step by lia. rewrite <- inv_cells0, <- inv_max0, E1, E2. simpl.
    apply Z.ltb_lt in E2. unfold cells. lia. }
  constructor; simpl; auto; try lia.
  apply Z.ltb_lt in E2.
  eapply Forall_impl; [|exact inv_range0]. simpl. intros v Hv. unfold cells. lia.
Qed.

Lemma complete_round_unfold g w :
  complete_round g w =
  if ((score g + 1) mod 5 =? 0) && (num_buttons g <? max_buttons g)
  then (add_buttons 2;; delay Growing 300) (set_score (score g + 1) g) w
  else Ok tt (set_score (score g + 1) g) w.
Proof.
  unfold complete_round, bind at 1, modify, bind at 1, get.
  cbn [score set_score num_buttons max_buttons].
  now destruct (((score g + 1) mod 5 =? 0) && (num_buttons g <? max_buttons g)).
Qed.

Lemma complete_round_spec g0 g w :
  session_inv g0 1 g ->
  post (fun ph g' w' => ph = Growing /\ session_inv g0 0 g' /\
                        (length (timeline w') <= length (timeline w))%nat)
       (fun _ _ => False) False
       (complete_round g w)
       (fun _ g' w' => session_inv g0 0 g' /\
                       (length (timeline w') <= length (timeline w))%nat).
Proof.
  intros Hinv. rewrite complete_round_unfold.
  destruct ((score g + 1) mod 5 =? 0) eqn:E1; cbn [andb].
  - destruct (num_buttons g <? max_buttons g) eqn:E2.
    + pose proof (session_inv_grow g0 g Hinv E1 E2) as Hg. cbv zeta in Hg.
      assert (Hn : 0 <= num_buttons (set_score (score g + 1) g)).
      { simpl. destruct Hinv as [_ _ _ _ _ _ _ Hc _ _]. rewrite Hc.
        pose proof (grown_bounds (max_buttons g0) (score g)). lia. }
      unfold bind at 1. rewrite (add_buttons_runs _ w Hn). cbv zeta.
      cbn [num_buttons max_buttons set_score].
      eapply post_mono; [apply (idles_delay Growing 300) | | | | ]; cbv beta; auto.
      * intros ph g' w' (-> & -> & Hle). auto.
      * intros _ g' w' (-> & Hle). auto.
    + simpl. split; [|lia]. apply session_inv_score; auto.
  - simpl. split; [|lia]. apply session_inv_score; auto.
Qed.

Lemma py_index_some {A : Type} (l : list A) (i : Z) :
  0 <= i < Z.of_nat (length l) -> exists a, py_index l i = Some a.
Proof.
  intros Hi. unfold py_index.
  destruct (0 <=? i) eqn:E1; [|apply Z.leb_gt in E1; lia].
  destruct (i <? Z.of_nat (length l)) eqn:E2; [|apply Z.ltb_ge in E2; lia].
  simpl. destruct (nth_error l (Z.to_nat i)) eqn:E; [now eexists|].
  apply nth_error_None in E. lia.
Qed.

Lemma animate_sequence_idles g :
  buttons g = layout (num_buttons g) ->
  Forall (fun v => 0 <= v < num_buttons g) (sequence g) ->
  idles_at Playback animate_sequence g.
Proof.
  intros Hb Hall w. unfold animate_sequence, bind at 1, get.
  apply idles_at_each. intros v Hv w1.
  rewrite Forall_forall in Hall. specialize (Hall v Hv).
  pose proof (layout_index (num_buttons g) v Hall) as Hidx. rewrite <- Hb in Hidx.
  unfold bind at 1, get. rewrite Hidx. revert w1.
  change (idles_at Playback
    (emit (Highlight (Button.id (button_at (num_buttons g) v)));;
     animation Playback;;
     delay Playback (highlight_delay g);;
     emit (Unhighlight (Button.id (button_at (num_buttons g) v)));;
     animation Playback;;
     delay Playback 100) g).
  do 5 (apply idles_at_bind;
        [first [apply idles_emit | apply idles_animation | apply idles_delay]|]).
  apply idles_delay.
Qed.

(** The rounds of a session keep the session's invariant: at every place
    where the run can be observed, and when the loop is left. *)
Lemma round_loop_spec g0 fuel g w :
  session_inv g0 0 g ->
  post (fun ph g' _ => session_cut g0 ph g') (fun g' _ => session_inv g0 1 g')
       (fuel <= length (timeline w))%nat
       (round_loop fuel g w)
       (fun _ g' _ => session_inv g0 1 g').
Proof.
  revert g w. induction fuel as [|fuel IH]; intros g w Hinv.
  - simpl. lia.
  - cbn [round_loop].
    eapply post_idles; [apply (idles_emit RoundStart) | intros; exact Hinv | intros w1 H1].
    apply post_blocking; [intros; exact Hinv | intros w2 H2].
    assert (Hcells : 4 <= num_buttons g).
    { destruct Hinv as [_ _ _ _ _ _ _ Hc _ _]. rewrite Hc. apply grown_bounds. }
    unfold bind at 1. rewrite add_to_sequence_runs by lia.
    set (v := hd 0 (dice w2) mod num_buttons g).
    assert (Hv : 0 <= v < num_buttons g) by (apply Z.mod_pos_bound; lia).
    pose proof (session_inv_append g0 g v Hinv Hv) as Hinv1.
    set (g1 := set_sequence (sequence g ++ [v]) g) in *.
    set (w3 := mkWorld (queue w2) (timeline w2) (tl (dice w2)) (out w2)).
    eapply post_idles.
    { apply animate_sequence_idles; now destruct Hinv1. }
    { intros; exact Hinv1. }
    intros w4 H4. simpl in H4.
    unfold bind at 1, modify, bind at 1, get.
    set (g2 := set_user_sequence [] g1).
    assert (Hrec : recalled g1 g2) by now eexists.
    pose proof (recalled_inv g0 1 g1 g2 Hrec Hinv1) as Hinv2.
    apply post_bind.
    eapply post_mono;
      [apply (for_idx_spec fuel (py_range (Z.of_nat (length (sequence g2)))) true g2 w4)
      | | | | ]; cbv beta.
    + apply Forall_forall. intros i Hi. apply py_range_In in Hi.
      now apply py_index_some.
    + intros ph g' w' (-> & Hg' & _). exact (recalled_inv g0 1 g2 g' Hg' Hinv2).
    + intros g' w' Hg'. exact (recalled_inv g0 1 g2 g' Hg' Hinv2).
    + lia.
    + intros still g3 w5 (Hg3 & H5).
      pose proof (recalled_inv g0 1 g2 g3 Hg3 Hinv2) as Hinv3.
      destruct (negb still); [exact Hinv3|].
      apply post_bind.
      eapply post_mono; [apply (complete_round_spec g0 g3 w5 Hinv3) | | | | ];
        cbv beta.
      * intros ph g' w' (-> & Hg' & _). exact Hg'.
      * intros ? ? [].
      * intros [].
      * intros _ g4 w6 (Hinv4 & H6).
        eapply post_mono; [apply (IH g4 w6 Hinv4) | | | | ]; cbv beta; auto. lia.
Qed.

(** The same for the whole of [run_gameplay], whatever the game held
    before: the session starts from [reset_game]. *)
Lemma run_gameplay_spec fuel g w :
  post (fun ph g' _ => session_cut g ph g') (fun g' _ => session_inv g 1 g')
       (fuel <= length (timeline w))%nat
       (run_gameplay fuel g w)
       (fun _ g' _ => exists g1, session_inv g 1 g1 /\ g' = set_state GAME_OVER g1).
Proof.
  unfold run_gameplay, bind at 1. rewrite reset_game_runs.
  apply post_bind.
  eapply post_mono; [apply (round_loop_spec g fuel _ w (session_inv_reset g)) | | | | ];
    cbv beta; auto.
  intros _ g1 w1 Hinv1. simpl. now exists g1.
Qed.

(** ** What can be observed of a session *)

(** [Game.__init__] builds the first grid with [create_buttons(4)]. *)
Lemma init_game_buttons : create_buttons 4 = Returns (buttons init_game).
Proof. reflexivity. Qed.

(** The menus: a click on Start, then a click on Fast, lead from the
    title screen into a session, here cut in its first playback. *)
Lemma run_reaches_a_session :
  match run 10 init_game
            (mkWorld []
               ([[MOUSEBUTTONDOWN (400, 380)]; []; [MOUSEBUTTONDOWN (400, 380)]; []]
                ++ quiet 3) [3] []) with
  | Cut Playback g _ =>
      state g = GAME /\ difficulty g = Fast /\ sequence g = [3] /\ score g = 0
  | _ => False
  end.
Proof. vm_compute. repeat split. Qed.

(** Every game state a session can be observed in satisfies the session's
    invariant: with [extra = 0] between rounds, with [extra = 1] from the
    playback to the end of the recall phase; when [run_gameplay] returns,
    only [state] was changed on top of it. *)
Lemma run_gameplay_observed fuel g w g' :
  final_game (run_gameplay fuel g w) = Some g' ->
  match run_gameplay fuel g w with
  | Cut RoundStart _ _ | Cut Growing _ _ => session_inv g 0 g'
  | Cut Playback _ _ | Cut Recall _ _ | Exit _ _ => session_inv g 1 g'
  | Ok _ _ _ => exists g1, session_inv g 1 g1 /\ g' = set_state GAME_OVER g1
  | _ => False
  end.
Proof.
  pose proof (run_gameplay_spec fuel g w) as H.
  destruct (run_gameplay fuel g w) as [[] g1 w1|g1 w1|e g1 w1|ph g1 w1|];
    simpl in *; intros E; inversion E; subst; auto.
  destruct ph; simpl in H; auto; contradiction.
Qed.

(** With more fuel than the timeline is long the model never stops for
    lack of fuel, and no exception is raised in any case. *)
Lemma run_gameplay_total fuel g w :
  (length (timeline w) < fuel)%nat ->
  exists g', final_game (run_gameplay fuel g w) = Some g' /\
             forall e w', run_gameplay fuel g w <> Raise e g' w'.
Proof.
  intros Hfuel. pose proof (run_gameplay_spec fuel g w) as H.
  destruct (run_gameplay fuel g w) as [[] g1 w1|g1 w1|e g1 w1|ph g1 w1|];
    simpl in *; try contradiction; try lia;
    (eexists; split; [reflexivity | discriminate]).
Qed.

Lemma run_gameplay_never_raises fuel g w e g' w' :
  run_gameplay fuel g w <> Raise e g' w'.
Proof.
  pose proof (run_gameplay_spec fuel g w) as H. intros E. rewrite E in H. exact H.
Qed.

Lemma session_inv_index g0 extra g :
  session_inv g0 extra g ->
  Forall (fun v => py_index (buttons g) v = Some (button_at (num_buttons g) v))
         (sequence g).
Proof.
  intros [_ _ _ _ _ _ _ _ Hb Hr]. rewrite Hb.
  eapply Forall_impl; [|exact Hr]. simpl. intros v Hv. now apply layout_index.
Qed.

(** ** The claims about the grid *)

Lemma is_clicked_rect b pos : Button.is_clicked b pos = Rect.collidepoint (Button.rect b) pos.
Proof.
  unfold Button.is_clicked, Rect.centerx, Rect.centery, Rect.collidepoint.
  destruct pos as [px py]. cbn [Rect.x Rect.y Rect.width Rect.height].
  replace (Rect.x (Button.rect b) + Rect.width (Button.rect b) / 2
           - Rect.width (Button.rect b) / 2) with (Rect.x (Button.rect b)) by lia.
  replace (Rect.y (Button.rect b) + Rect.height (Button.rect b) / 2
           - Rect.height (Button.rect b) / 2) with (Rect.y (Button.rect b)) by lia.
  reflexivity.
Qed.

Lemma collidepoint_overlaps a b pos :
  Rect.collidepoint a pos = true -> Rect.collidepoint b pos = true ->
  Rect.overlaps a b = true.
Proof.
  unfold Rect.collidepoint, Rect.overlaps. destruct pos as [px py].
  rewrite !andb_true_iff, !Z.leb_le, !Z.ltb_lt. lia.
Qed.

Lemma py_range_NoDup n : NoDup (py_range n).
Proof.
  unfold py_range. apply NoDup_map_NoDup_ForallPairs; [|apply seq_NoDup].
  intros a b _ _. apply Nat2Z.inj.
Qed.

(** C4, counterexample: for six cells the grid has three columns and two
    rows, so the row count is not [ceil(sqrt(6)) = 3]. *)
Lemma grid_of_six_has_two_rows :
  grid_cols 6 = 3 /\ grid_rows 6 = 2 /\ Z.sqrt_up 6 = 3 /\ grid_rows 6 <> Z.sqrt_up 6.
Proof. repeat split. discriminate. Qed.

(** C4, as amended: for every [n >= 1], [create_buttons n] returns exactly
    [n] cells; cell [i] has identifier [i] and sits, row-major, in column
    [i mod cols] and row [i / cols] of the centred grid, with the fixed
    size; two different cells never overlap (no point clicks both); the
    column count is [ceil(sqrt(n))], the row count is the least one with
    [cols * rows >= n], and it is the column count or one less. *)
Theorem create_buttons_grid (n : Z) :
  1 <= n ->
  exists cells,
    create_buttons n = Returns cells /\
    Z.of_nat (length cells) = n /\
    (forall i, 0 <= i < n ->
       exists b, py_index cells i = Some b /\ Button.id b = i /\
         Rect.x (Button.rect b) =
           fst (grid_start n) + (i mod grid_cols n) * (BUTTON_SIZE + BUTTON_PADDING) /\
         Rect.y (Button.rect b) =
           snd (grid_start n) + (i / grid_cols n) * (BUTTON_SIZE + BUTTON_PADDING) /\
         Rect.width (Button.rect b) = BUTTON_SIZE /\
         Rect.height (Button.rect b) = BUTTON_SIZE /\
         0 <= i mod grid_cols n < grid_cols n /\
         0 <= i / grid_cols n < grid_rows n) /\
    (forall i j bi bj, 0 <= i -> 0 <= j -> i <> j ->
       py_index cells i = Some bi -> py_index cells j = Some bj ->
       Rect.overlaps (Button.rect bi) (Button.rect bj) = false /\
       forall pos, Button.is_clicked bi pos = true -> Button.is_clicked bj pos = false) /\
    grid_cols n = Z.sqrt_up n /\
    n <= grid_cols n * grid_rows n /\
    grid_cols n * (grid_rows n - 1) < n /\
    grid_rows n <= grid_cols n <= grid_rows n + 1.
Proof.
  intros Hn. destruct (grid_size_spec n Hn) as (Hr & Hc & Hsq & Hrows).
  exists (layout n). split; [apply create_buttons_layout; lia|].
  split; [rewrite layout_length; lia|].
  split; [|split].
  - intros i Hi. exists (button_at n i). split; [now apply layout_index|].
    repeat split; try reflexivity.
    + apply Z.mod_pos_bound. lia.
    + apply Z.mod_pos_bound. lia.
    + apply Z.div_pos; lia.
    + apply Z.div_lt_upper_bound; lia.
  - intros i j bi bj Hi Hj Hij Ei Ej.
    assert (Hbi : bi = button_at n i).
    { pose proof (py_index_bounds _ _ _ Ei) as B. rewrite layout_length in B.
      rewrite layout_index in Ei by lia. congruence. }
    assert (Hbj : bj = button_at n j).
    { pose proof (py_index_bounds _ _ _ Ej) as B. rewrite layout_length in B.
      rewrite layout_index in Ej by lia. congruence. }
    subst bi bj. pose proof (button_at_overlap n i j Hn Hi Hj Hij) as Hov.
    split; [exact Hov|]. intros pos Hclick.
    destruct (Button.is_clicked (button_at n j) pos) eqn:E; [|reflexivity].
    rewrite is_clicked_rect in Hclick, E.
    rewrite (collidepoint_overlaps _ _ _ Hclick E) in Hov. discriminate.
  - split; [now apply grid_cols_sqrt_up | lia].
Qed.

Lemma create_buttons_grid_witness :
  1 <= 6 /\
  exists cells, create_buttons 6 = Returns cells /\ Z.of_nat (length cells) = 6.
Proof.
  split; [lia|].
  destruct (create_buttons_grid 6) as (cells & Hc & Hl & _); [lia|].
  exists cells. split; assumption.
Defined.

(** C6: [create_buttons] is a function of its argument alone.  Called in
    any two game states and environments it returns the same list, which
    is the closed form [layout n] (identifiers [0..n-1], bounds given by
    [button_at]), and it changes neither the game nor the environment; on
    a negative argument both calls raise the same exception. *)
Theorem create_buttons_deterministic (n : Z) (g1 g2 : Game) (w1 w2 : World) :
  (0 <= n /\
   lift_py (create_buttons n) g1 w1 = Ok (layout n) g1 w1 /\
   lift_py (create_buttons n) g2 w2 = Ok (layout n) g2 w2 /\
   map Button.id (layout n) = py_range n /\
   map Button.rect (layout n) = map (fun i => Button.rect (button_at n i)) (py_range n))
  \/
  (n < 0 /\
   lift_py (create_buttons n) g1 w1 = Raise TypeError g1 w1 /\
   lift_py (create_buttons n) g2 w2 = Raise TypeError g2 w2).
Proof.
  destruct (Z_lt_le_dec n 0) as [Hneg|Hpos].
  - right. rewrite create_buttons_negative by assumption. auto.
  - left. rewrite create_buttons_layout by assumption.
    split; [assumption|]. split; [reflexivity|]. split; [reflexivity|].
    unfold layout. rewrite !map_map. split; [apply map_id | reflexivity].
Qed.

(** ** The claims about the start of a session and the random draw *)

Lemma chosen_session_runs d fuel g w :
  (choose d;; run_gameplay fuel) g w =
  (round_loop fuel;; modify (set_state GAME_OVER))
    (mkGame GAME (layout 4) [] [] 0 4 (max_buttons g) d
            (match d with Normal => 500 | Fast => 100 end)
            (match d with Normal => 100 | Fast => 50 end)) w.
Proof. destruct d; reflexivity. Qed.

(** C7: the session started by a difficulty choice is fresh.  The choice
    sets [state] to [GAME]; the next pass of [run] enters [run_gameplay],
    which begins with [reset_game]: score 0, four cells, empty sequence
    and user trace, the grid of four; and nothing of what the game held
    before the choice (another game [other] of the same program) makes a
    difference to the session. *)
Theorem session_starts_fresh (d : Difficulty) (fuel : nat) (g other : Game) (w : World) :
  max_buttons other = max_buttons g ->
  exists entered fresh,
    choose d g w = Ok tt entered w /\
    state entered = GAME /\
    run_iteration fuel entered w =
      (run_gameplay fuel;; modify (set_state GAME_OVER)) entered w /\
    reset_game entered w = Ok tt fresh w /\
    run_gameplay fuel entered w =
      (round_loop fuel;; modify (set_state GAME_OVER)) fresh w /\
    score fresh = 0 /\ num_buttons fresh = 4 /\
    sequence fresh = [] /\ user_sequence fresh = [] /\
    buttons fresh = layout 4 /\
    (choose d;; run_gameplay fuel) other w = (choose d;; run_gameplay fuel) g w.
Proof.
  intros Hmax.
  rewrite !chosen_session_runs, Hmax.
  destruct d; (do 2 eexists); (repeat (split; [reflexivity|])); reflexivity.
Qed.

Lemma session_starts_fresh_witness :
  max_buttons (set_score 7 (set_sequence [3; 1; 2] init_game)) = max_buttons init_game /\
  exists entered fresh,
    choose Fast init_game (mkWorld [] [] [] []) = Ok tt entered (mkWorld [] [] [] []) /\
    state entered = GAME /\
    reset_game entered (mkWorld [] [] [] []) = Ok tt fresh (mkWorld [] [] [] []) /\
    score fresh = 0 /\ num_buttons fresh = 4.
Proof.
  split; [reflexivity|].
  destruct (session_starts_fresh Fast 1 init_game
              (set_score 7 (set_sequence [3; 1; 2] init_game)) (mkWorld [] [] [] []))
    as (entered & fresh & H1 & H2 & _ & H3 & _ & H4 & H5 & _); [reflexivity|].
  exists entered, fresh. repeat split; assumption.
Defined.

Lemma appended_draw_mod g r : 1 <= num_buttons g -> appended_draw g r = r mod num_buttons g.
Proof.
  intros Hn. unfold appended_draw. rewrite add_to_sequence_runs by assumption.
  cbn [sequence set_sequence dice hd]. apply last_last.
Qed.

(** Runs of raw draws: a run splits into its first part and the rest. *)
Lemma py_range_shift (len s : nat) :
  map Z.of_nat (seq s len) = map (Z.add (Z.of_nat s)) (map Z.of_nat (seq 0 len)).
Proof.
  revert s. induction len as [|len IH]; intros s; [reflexivity|].
  cbn [seq map]. f_equal; [lia|].
  rewrite (IH (S s)), (IH 1%nat), !map_map.
  apply map_ext. intros j. lia.
Qed.

Lemma span_app (k a b : Z) :
  0 <= a -> 0 <= b -> span k (a + b) = span k a ++ span (k + a) b.
Proof.
  intros Ha Hb. unfold span, py_range.
  rewrite Z2Nat.inj_add, seq_app, !map_app by assumption. f_equal.
  cbn [Nat.add]. rewrite py_range_shift, Z2Nat.id, !map_map by assumption.
  apply map_ext. intros j. lia.
Qed.

Lemma span_length (k len : Z) : length (span k len) = Z.to_nat len.
Proof. unfold span. now rewrite length_map, py_range_length. Qed.

(** Over one period, at any offset, the reduction modulo [n] takes each
    value of [0..n-1] exactly once. *)
Lemma period_counts_once (n k t : Z) :
  1 <= n -> 0 <= t < n ->
  count_occ Z.eq_dec (map (fun r => r mod n) (span k n)) t = 1%nat.
Proof.
  intros Hn Ht. apply NoDup_count_occ'.
  - unfold span. rewrite map_map.
    apply NoDup_map_NoDup_ForallPairs; [|apply py_range_NoDup].
    intros a b Ha Hb E. apply py_range_In in Ha, Hb.
    pose proof (Z.div_mod (k + a) n ltac:(lia)) as Da.
    pose proof (Z.div_mod (k + b) n ltac:(lia)) as Db.
    rewrite E in Da.
    assert (Hq : (k + a) / n - (k + b) / n = 0) by nia.
    nia.
  - apply in_map_iff. exists (k + (t - k) mod n). split.
    + rewrite Z.add_mod_idemp_r by lia.
      replace (k + (t - k)) with t by lia. apply Z.mod_small. lia.
    + unfold span. apply in_map. apply py_range_In.
      apply Z.mod_pos_bound. lia.
Qed.

Lemma periods_count (n k t : Z) (m : nat) :
  1 <= n -> 0 <= t < n ->
  count_occ Z.eq_dec (map (fun r => r mod n) (span k (n * Z.of_nat m))) t = m.
Proof.
  intros Hn Ht. revert k. induction m as [|m IH]; intros k.
  - now rewrite Z.mul_0_r.
  - replace (n * Z.of_nat (S m)) with (n + n * Z.of_nat m) by lia.
    rewrite span_app, map_app, count_occ_app by lia.
    now rewrite period_counts_once, IH.
Qed.

(** C8: with [n] cells ([n >= 1]), [add_to_sequence] appends exactly one
    value [v] and consumes one random draw; [v] is what
    [random.randint(0, n - 1)] returns, untouched, and lies in [0..n-1].
    The value is drawn uniformly from that range: it depends on the raw
    draw and on [n] only, no raw draw gives a value outside the range, and
    over any whole number [m] of periods of raw draws, from any offset [k],
    each value of [0..n-1] is appended for exactly [m] of the [n * m] draws,
    so that its probability is [1 / n]. *)
Theorem add_to_sequence_appends_uniform_draw (g : Game) (w : World) :
  1 <= num_buttons g ->
  (exists v,
     add_to_sequence g w =
       Ok tt (set_sequence (sequence g ++ [v]) g)
          (mkWorld (queue w) (timeline w) (tl (dice w)) (out w)) /\
     randint 0 (num_buttons g - 1) g w =
       Ok v g (mkWorld (queue w) (timeline w) (tl (dice w)) (out w)) /\
     v = appended_draw g (hd 0 (dice w)) /\
     0 <= v <= num_buttons g - 1) /\
  (forall r, 0 <= appended_draw g r <= num_buttons g - 1) /\
  (forall g2 r, num_buttons g2 = num_buttons g ->
     appended_draw g2 r = appended_draw g r) /\
  (forall k m t, 1 <= m -> 0 <= t <= num_buttons g - 1 ->
     count_occ Z.eq_dec (map (appended_draw g) (span k (num_buttons g * m))) t
       = Z.to_nat m /\
     (chance (span k (num_buttons g * m)) (appended_draw g) t
        == 1 # Z.to_pos (num_buttons g))%Q).
Proof.
  intros Hn.
  assert (Hrange : forall r, 0 <= appended_draw g r <= num_buttons g - 1).
  { intros r. rewrite appended_draw_mod by assumption.
    pose proof (Z.mod_pos_bound r (num_buttons g)). lia. }
  assert (Hcount : forall k m t, 1 <= m -> 0 <= t <= num_buttons g - 1 ->
            count_occ Z.eq_dec
              (map (appended_draw g) (span k (num_buttons g * m))) t = Z.to_nat m).
  { intros k m t Hm Ht.
    rewrite (map_ext (appended_draw g) (fun r => r mod num_buttons g))
      by (intros r; now apply appended_draw_mod).
    rewrite <- (Z2Nat.id m) at 1 by lia. apply periods_count; lia. }
  split; [|split; [exact Hrange|split]].
  - exists (hd 0 (dice w) mod num_buttons g).
    split; [now apply add_to_sequence_runs|].
    split.
    + unfold randint. replace (num_buttons g - 1 <? 0) with false
        by (symmetry; apply Z.ltb_ge; lia).
      now replace (num_buttons g - 1 - 0 + 1) with (num_buttons g) by lia.
    + split; [now rewrite appended_draw_mod|].
      pose proof (Z.mod_pos_bound (hd 0 (dice w)) (num_buttons g)). lia.
  - intros g2 r E. rewrite !appended_draw_mod by lia. now rewrite E.
  - intros k m t Hm Ht. split; [now apply Hcount|].
    unfold chance, Qeq. cbn [Qnum Qden].
    rewrite Hcount, span_length by assumption.
    rewrite !Z2Pos.id, !Z2Nat.id by nia. lia.
Qed.

Lemma add_to_sequence_appends_uniform_draw_witness :
  1 <= num_buttons init_game /\
  (exists v,
     add_to_sequence init_game (mkWorld [] [] [7] []) =
       Ok tt (set_sequence [v] init_game) (mkWorld [] [] [] []) /\
     0 <= v <= 3) /\
  (chance (span 5 (4 * 3)) (appended_draw init_game) 2 == 1 # 4)%Q.
Proof.
  split; [vm_compute; discriminate|].
  destruct (add_to_sequence_appends_uniform_draw init_game (mkWorld [] [] [7] []))
    as ((v & H1 & _ & _ & H2) & _ & _ & H3); [vm_compute; discriminate|].
  split.
  - exists v. split; [exact H1 | exact H2].
  - apply (H3 5 3 2); [lia | vm_compute; split; discriminate].
Defined.

(** ** The claims about the rounds of a session *)

Lemma complete_round_observed g w g' :
  0 <= num_buttons g ->
  final_game (complete_round g w) = Some g' ->
  let growing := ((score g + 1) mod 5 =? 0) && (num_buttons g <? max_buttons g) in
  let cells := if growing
               then Z.max (num_buttons g) (Z.min (num_buttons g + 2) (max_buttons g))
               else num_buttons g in
  g' = set_buttons (if growing then layout cells else buttons g)
         (set_num_buttons cells (set_score (score g + 1) g)).
Proof.
  intros Hn. rewrite complete_round_unfold. cbv zeta.
  destruct (((score g + 1) mod 5 =? 0) && (num_buttons g <? max_buttons g)).
  - unfold bind at 1.
    rewrite (add_buttons_runs (set_score (score g + 1) g) w Hn). cbv zeta.
    cbn [num_buttons max_buttons set_score].
    unfold delay, bind, emit, elapse.
    destruct w as [q [|posted later] d shown]; simpl; intros E; now inversion E.
  - simpl. intros E. inversion E. now destruct g.
Qed.

(** C2: the scale controller.  At the end of a correct round the score
    goes up by one and the cell count becomes [grow count max 2] exactly
    when [should_grow] holds of the new score, else it is unchanged (in
    particular once it equals the maximum); a grid that grew was rebuilt
    for the new count.  In a session of the program (maximum 10) the cell
    count at every moment is [min 10 (4 + 2 * (score / 5))]: 6 at score 5,
    8 at score 10, 10 at score 15 and still 10 at score 20, each growth
    being of exactly 2 cells. *)
Theorem grid_grows_at_multiples_of_five
    (fuel : nat) (g : Game) (w : World) (g' : Game)
    (g1 : Game) (w1 : World) (g1' : Game) :
  max_buttons g = MAX_BUTTONS ->
  final_game (run_gameplay fuel g w) = Some g' ->
  0 <= score g1 -> 0 <= num_buttons g1 ->
  final_game (complete_round g1 w1) = Some g1' ->
  (score g1' = score g1 + 1 /\
   num_buttons g1' =
     (if should_grow (score g1') (num_buttons g1) (max_buttons g1)
      then grow (num_buttons g1) (max_buttons g1) 2
      else num_buttons g1) /\
   (should_grow (score g1') (num_buttons g1) (max_buttons g1) = true ->
    buttons g1' = layout (num_buttons g1')) /\
   (num_buttons g1 = max_buttons g1 -> num_buttons g1' = num_buttons g1)) /\
  (num_buttons g' = Z.min 10 (4 + 2 * (score g' / 5)) /\
   buttons g' = layout (num_buttons g') /\
   (score g' = 5 -> num_buttons g' = 6) /\
   (score g' = 10 -> num_buttons g' = 8) /\
   (score g' = 15 -> num_buttons g' = 10) /\
   (score g' = 20 -> num_buttons g' = 10) /\
   (0 < score g' -> score g' mod 5 = 0 -> score g' <= 15 ->
    num_buttons g' = grown MAX_BUTTONS (score g' - 1) + 2)).
Proof.
  intros Hmax Hobs Hs1 Hn1 Hstep. split.
  - pose proof (complete_round_observed g1 w1 g1' Hn1 Hstep) as E. cbv zeta in E.
    assert (Hg : should_grow (score g1 + 1) (num_buttons g1) (max_buttons g1) =
                 ((score g1 + 1) mod 5 =? 0) && (num_buttons g1 <? max_buttons g1)).
    { unfold should_grow. destruct (0 <? score g1 + 1) eqn:E0; [reflexivity|].
      apply Z.ltb_ge in E0. lia. }
    rewrite <- Hg in E. subst g1'. cbn [score num_buttons buttons set_buttons set_num_buttons set_score].
    split; [reflexivity|]. rewrite Hg.
    destruct ((score g1 + 1) mod 5 =? 0) eqn:E1; cbn [andb].
    + destruct (num_buttons g1 <? max_buttons g1) eqn:E2;
        [apply Z.ltb_lt in E2 | apply Z.ltb_ge in E2].
      * unfold grow. repeat split; auto; lia.
      * repeat split; auto; discriminate.
    + repeat split; auto; discriminate.
  - assert (Hinv : exists extra g2, session_inv g extra g2 /\
                     (g' = g2 \/ g' = set_state GAME_OVER g2)).
    { pose proof (run_gameplay_observed fuel g w g' Hobs) as H.
      destruct (run_gameplay fuel g w) as [[] g2 w2|g2 w2|e g2 w2|ph g2 w2|];
        try contradiction.
      - destruct H as (g3 & H3 & ->). eauto.
      - eauto.
      - destruct ph; try contradiction; eauto. }
    destruct Hinv as (extra & g2 & [_ _ _ _ _ Hsc _ Hcells Hb _] & Hg').
    assert (Hsame : score g' = score g2 /\ num_buttons g' = num_buttons g2 /\
                    buttons g' = buttons g2) by (destruct Hg' as [-> | ->]; auto).
    destruct Hsame as (-> & -> & ->). rewrite Hmax in Hcells.
    assert (Hclosed : num_buttons g2 = Z.min 10 (4 + 2 * (score g2 / 5))).
    { rewrite Hcells. unfold grown, MAX_BUTTONS.
      assert (0 <= score g2 / 5) by (apply Z.div_pos; lia). lia. }
    split; [exact Hclosed|]. split; [exact Hb|].
    repeat split; intros; rewrite Hclosed; unfold grown, MAX_BUTTONS;
      try (Z.div_mod_to_equations; lia).
Qed.

Lemma grid_grows_at_multiples_of_five_witness :
  max_buttons init_game = MAX_BUTTONS /\
  0 <= score (set_score 4 init_game) /\ 0 <= num_buttons (set_score 4 init_game) /\
  exists g' g1',
    final_game (run_gameplay 2000 init_game five_rounds) = Some g' /\
    final_game (complete_round (set_score 4 init_game) (mkWorld [] [] [] [])) = Some g1' /\
    score g' = 5 /\ num_buttons g' = 6 /\ score g1' = 5 /\ num_buttons g1' = 6.
Proof.
  split; [reflexivity|]. split; [vm_compute; discriminate|].
  split; [vm_compute; discriminate|].
  destruct (final_game (run_gameplay 2000 init_game five_rounds)) as [g'|] eqn:E;
    [|vm_compute in E; discriminate].
  destruct (final_game (complete_round (set_score 4 init_game) (mkWorld [] [] [] [])))
    as [g1'|] eqn:E1; [|vm_compute in E1; discriminate].
  destruct (grid_grows_at_multiples_of_five 2000 init_game five_rounds g'
              (set_score 4 init_game) (mkWorld [] [] [] []) g1')
    as ((Hs & Hn & _) & (_ & _ & H5 & _));
    [reflexivity | exact E | vm_compute; discriminate | vm_compute; discriminate
    | exact E1 |].
  assert (Hscore : score g' = 5) by (vm_compute in E; inversion E; reflexivity).
  exists g', g1'. repeat split; auto.
  rewrite Hn, Hs. reflexivity.
Defined.

(** C5: the length of the sequence is the score plus one from the moment
    the round's element is appended until the round ends (playback, every
    poll and press of the recall phase, [sys.exit()], game over), and
    equals the score between rounds.  [add_to_sequence] appends exactly
    one element and leaves the score; the end of a correct round adds
    exactly one to the score and leaves the sequence. *)
Theorem sequence_length_is_score_plus_one
    (fuel : nat) (g : Game) (w : World) (g' : Game)
    (g1 : Game) (w1 : World) (g1' : Game) :
  final_game (run_gameplay fuel g w) = Some g' ->
  1 <= num_buttons g1 ->
  final_game (complete_round g1 w1) = Some g1' ->
  match run_gameplay fuel g w with
  | Cut RoundStart _ _ | Cut Growing _ _ =>
      Z.of_nat (length (sequence g')) = score g'
  | _ => Z.of_nat (length (sequence g')) = score g' + 1
  end /\
  (exists v g2 w2,
     add_to_sequence g1 w1 = Ok tt g2 w2 /\
     sequence g2 = sequence g1 ++ [v] /\ score g2 = score g1) /\
  score g1' = score g1 + 1 /\ sequence g1' = sequence g1.
Proof.
  intros Hobs Hn1 Hstep. split; [|split].
  - pose proof (run_gameplay_observed fuel g w g' Hobs) as H.
    destruct (run_gameplay fuel g w) as [[] g2 w2|g2 w2|e g2 w2|ph g2 w2|];
      try contradiction.
    + destruct H as (g3 & [_ _ _ _ _ _ Hl _ _ _] & ->). exact Hl.
    + destruct H. lia.
    + destruct ph; try contradiction; destruct H; lia.
  - rewrite add_to_sequence_runs by assumption. now do 3 eexists.
  - pose proof (complete_round_observed g1 w1 g1' ltac:(lia) Hstep) as E.
    cbv zeta in E. subst g1'. split; reflexivity.
Qed.

Lemma sequence_length_is_score_plus_one_witness :
  1 <= num_buttons init_game /\
  exists g' g1',
    final_game (run_gameplay 200 init_game one_round) = Some g' /\
    final_game (complete_round init_game (mkWorld [] [] [] [])) = Some g1' /\
    score g' = 1 /\ sequence g' = [1; 2] /\ score g1' = 1.
Proof.
  split; [vm_compute; discriminate|].
  destruct (final_game (run_gameplay 200 init_game one_round)) as [g'|] eqn:E;
    [|vm_compute in E; discriminate].
  destruct (final_game (complete_round init_game (mkWorld [] [] [] [])))
    as [g1'|] eqn:E1; [|vm_compute in E1; discriminate].
  destruct (sequence_length_is_score_plus_one 200 init_game one_round g'
              init_game (mkWorld [] [] [] []) g1')
    as (_ & _ & Hs & _); [exact E | vm_compute; discriminate | exact E1 |].
  exists g', g1'. split; [reflexivity|]. split; [reflexivity|].
  vm_compute in E. inversion E. repeat split. exact Hs.
Defined.

(** C10: indexing the buttons by a sequence element is always in bounds.
    An element is appended below the cell count of that moment; the end
    of a round never lowers the cell count; so in every state a session
    can be observed in, each element [v] of the sequence satisfies
    [0 <= v < num_buttons], the button list has [num_buttons] entries and
    [buttons[v]] is the button with identifier [v]; no run of
    [run_gameplay] raises an exception, and with more fuel than the
    timeline is long the model follows the run to an observable state. *)
Theorem sequence_elements_index_buttons
    (fuel : nat) (g : Game) (w : World) (g' : Game)
    (g1 : Game) (w1 : World) (g1' : Game) :
  final_game (run_gameplay fuel g w) = Some g' ->
  1 <= num_buttons g1 ->
  final_game (complete_round g1 w1) = Some g1' ->
  (forall e gr wr, run_gameplay fuel g w <> Raise e gr wr) /\
  (forall fuel' w', (length (timeline w') < fuel')%nat ->
     exists g'', final_game (run_gameplay fuel' g w') = Some g'') /\
  Forall (fun v => 0 <= v < num_buttons g' /\
                   exists b, py_index (buttons g') v = Some b /\ Button.id b = v)
         (sequence g') /\
  Z.of_nat (length (buttons g')) = num_buttons g' /\
  4 <= num_buttons g' /\
  (exists v g2 w2,
     add_to_sequence g1 w1 = Ok tt g2 w2 /\
     sequence g2 = sequence g1 ++ [v] /\ 0 <= v < num_buttons g1 /\
     num_buttons g2 = num_buttons g1) /\
  num_buttons g1 <= num_buttons g1'.
Proof.
  intros Hobs Hn1 Hstep.
  split; [intros e gr wr; apply run_gameplay_never_raises|].
  split.
  { intros fuel' w' Hfuel.
    destruct (run_gameplay_total fuel' g w' Hfuel) as (g'' & Hg'' & _). eauto. }
  assert (Hinv : exists extra g2, session_inv g extra g2 /\
                   (g' = g2 \/ g' = set_state GAME_OVER g2)).
  { pose proof (run_gameplay_observed fuel g w g' Hobs) as H.
    destruct (run_gameplay fuel g w) as [[] g2 w2|g2 w2|e g2 w2|ph g2 w2|];
      try contradiction.
    - destruct H as (g3 & H3 & ->). eauto.
    - eauto.
    - destruct ph; try contradiction; eauto. }
  destruct Hinv as (extra & g2 & Hinv & Hg').
  pose proof (session_inv_index g extra g2 Hinv) as Hidx.
  destruct Hinv as [_ _ _ _ _ Hsc _ Hcells Hb Hr].
  assert (Hsame : sequence g' = sequence g2 /\ num_buttons g' = num_buttons g2 /\
                  buttons g' = buttons g2) by (destruct Hg' as [-> | ->]; auto).
  destruct Hsame as (-> & -> & ->).
  pose proof (grown_bounds (max_buttons g) (score g2)) as Hfour.
  split; [|split; [|split; [|split]]].
  - rewrite Forall_forall in *. intros v Hv. split; [now apply Hr|].
    exists (button_at (num_buttons g2) v). split; [now apply Hidx | reflexivity].
  - rewrite Hb, layout_length. lia.
  - lia.
  - rewrite add_to_sequence_runs by assumption. do 3 eexists.
    split; [reflexivity|]. split; [reflexivity|]. split; [|reflexivity].
    apply Z.mod_pos_bound. lia.
  - pose proof (complete_round_observed g1 w1 g1' ltac:(lia) Hstep) as E.
    cbv zeta in E. subst g1'. cbn [num_buttons set_buttons set_num_buttons].
    destruct (((score g1 + 1) mod 5 =? 0) && (num_buttons g1 <? max_buttons g1)); lia.
Qed.

Lemma sequence_elements_index_buttons_witness :
  1 <= num_buttons init_game /\
  exists g' g1',
    final_game (run_gameplay 2000 init_game five_rounds) = Some g' /\
    final_game (complete_round init_game (mkWorld [] [] [] [])) = Some g1' /\
    sequence g' = [1; 2; 3; 0; 1; 5] /\ num_buttons g' = 6 /\
    Forall (fun v => 0 <= v < num_buttons g' /\
                     exists b, py_index (buttons g') v = Some b /\ Button.id b = v)
           (sequence g').
Proof.
  split; [vm_compute; discriminate|].
  destruct (final_game (run_gameplay 2000 init_game five_rounds)) as [g'|] eqn:E;
    [|vm_compute in E; discriminate].
  destruct (final_game (complete_round init_game (mkWorld [] [] [] [])))
    as [g1'|] eqn:E1; [|vm_compute in E1; discriminate].
  destruct (sequence_elements_index_buttons 2000 init_game five_rounds g'
              init_game (mkWorld [] [] [] []) g1')
    as (_ & _ & Hall & _); [exact E | vm_compute; discriminate | exact E1 |].
  exists g', g1'. split; [reflexivity|]. split; [reflexivity|].
  split; [|split; [|exact Hall]]; vm_compute in E; inversion E; reflexivity.
Defined.

(** ** The claims about the playback *)

Lemma observed_settings fuel g0 w0 g :
  final_game (run_gameplay fuel g0 w0) = Some g ->
  buttons g = layout (num_buttons g) /\
  Forall (fun v => 0 <= v < num_buttons g) (sequence g) /\
  difficulty g = difficulty g0 /\
  display_speed g = display_speed g0 /\
  fast_display_speed g = fast_display_speed g0.
Proof.
  intros Hobs. pose proof (run_gameplay_observed fuel g0 w0 g Hobs) as H.
  destruct (run_gameplay fuel g0 w0) as [[] g2 w2|g2 w2|e g2 w2|ph g2 w2|];
    try contradiction.
  - destruct H as (g3 & [] & ->). simpl. auto.
  - destruct H. auto.
  - destruct ph; try contradiction; destruct H; auto.
Qed.

Lemma delays_of_app t1 t2 : delays_of (t1 ++ t2) = delays_of t1 ++ delays_of t2.
Proof. unfold delays_of. apply flat_map_app. Qed.

Lemma delays_of_playback hold (l : list Z) :
  delays_of (flat_map (playback_of hold) l) = flat_map (fun _ => [hold; 100]) l.
Proof.
  induction l as [|v l IH]; [reflexivity|].
  cbn [flat_map]. rewrite delays_of_app, IH. reflexivity.
Qed.

(** C1, counterexample: after the choice of Fast the profile's display
    delay is 100 ms, yet the playback of the sequence [2; 0] holds each
    highlight for 50 ms; the delays between the two highlights are 50 ms
    and the fixed 100 ms that follows every un-highlight. *)
Lemma fast_playback_holds_for_50_ms :
  match (choose Fast;; animate_sequence)
          (set_sequence [2; 0] init_game) (mkWorld [] (quiet 84) [] []) with
  | Ok _ g w =>
      difficulty g = Fast /\ display_speed g = 100 /\
      out w = playback_of 50 2 ++ playback_of 50 0 /\
      delays_of (out w) = [50; 100; 50; 100]
  | _ => False
  end.
Proof. vm_compute. repeat split. Qed.

(** C1, as amended: in every state of a session played after the choice
    of difficulty [d], the playback shows each element of the sequence in
    order as: highlight, the frames of the animation, a delay of
    [hold_delay d] (500 ms for Normal, 50 ms for Fast), un-highlight, the
    frames again, and a delay of 100 ms. *)
Theorem playback_delay_by_difficulty
    (d : Difficulty) (fuel : nat) (g0 : Game) (w0 : World) (g : Game) (w : World) :
  final_game ((choose d;; run_gameplay fuel) g0 w0) = Some g ->
  (length (sequence g) * playback_calls <= length (timeline w))%nat ->
  chosen d g /\
  highlight_delay g = hold_delay d /\
  animate_sequence g w =
    Ok tt g (advance (length (sequence g) * playback_calls)
                     (flat_map (playback_of (hold_delay d)) (sequence g)) w) /\
  delays_of (flat_map (playback_of (hold_delay d)) (sequence g)) =
    flat_map (fun _ => [hold_delay d; 100]) (sequence g).
Proof.
  intros Hobs Hw.
  assert (E : (choose d;; run_gameplay fuel) g0 w0 =
              run_gameplay fuel
                (mkGame GAME (buttons g0) (sequence g0) (user_sequence g0) (score g0)
                        (num_buttons g0) (max_buttons g0) d
                        (match d with Normal => 500 | Fast => 100 end)
                        (match d with Normal => 100 | Fast => 50 end)) w0)
    by (destruct d; reflexivity).
  rewrite E in Hobs.
  destruct (observed_settings _ _ _ _ Hobs) as (Hb & Hr & Hd & Hds & Hfs).
  cbn [difficulty display_speed fast_display_speed] in Hd, Hds, Hfs.
  assert (Hhold : highlight_delay g = hold_delay d).
  { unfold highlight_delay. rewrite Hd, Hds, Hfs. now destruct d. }
  split; [now repeat split|]. split; [exact Hhold|].
  split; [|apply delays_of_playback].
  rewrite <- Hhold. now apply animate_sequence_runs.
Qed.

Lemma playback_delay_by_difficulty_witness :
  exists g,
    final_game ((choose Fast;; run_gameplay 2000) init_game five_rounds) = Some g /\
    (length (sequence g) * playback_calls <= length (timeline (mkWorld [] (quiet 300) [] [])))%nat /\
    sequence g = [1; 2; 3; 0; 1; 5] /\
    highlight_delay g = 50 /\
    animate_sequence g (mkWorld [] (quiet 300) [] []) =
      Ok tt g (advance (6 * playback_calls)
                       (flat_map (playback_of 50) [1; 2; 3; 0; 1; 5])
                       (mkWorld [] (quiet 300) [] [])).
Proof.
  destruct (final_game ((choose Fast;; run_gameplay 2000) init_game five_rounds))
    as [g|] eqn:E; [|vm_compute in E; discriminate].
  assert (Hseq : sequence g = [1; 2; 3; 0; 1; 5])
    by (vm_compute in E; inversion E; reflexivity).
  assert (Hw : (length (sequence g) * playback_calls
                <= length (timeline (mkWorld [] (quiet 300) [] [])))%nat)
    by (rewrite Hseq; vm_compute; repeat constructor).
  destruct (playback_delay_by_difficulty Fast 2000 init_game five_rounds g
              (mkWorld [] (quiet 300) [] []) E Hw) as (_ & Hh & Ha & _).
  exists g. split; [reflexivity|]. split; [exact Hw|]. split; [exact Hseq|].
  split; [exact Hh|]. rewrite Hseq in Ha. exact Ha.
Defined.

(** C9, counterexample: the only click of the run is posted while the
    first highlight is played back (blocking call 12 of the session, the
    playback being calls 2 to 43).  The first poll of the recall phase
    takes it as the player's answer: the user trace becomes [0], which
    differs from the sequence [1], and the session is over.  Without the
    click the same run waits in the recall phase with an empty trace. *)
Lemma click_during_playback_is_answered :
  nth 11 (timeline click_during_playback) [] = [click_on 4 0] /\
  match run_gameplay 300 init_game click_during_playback with
  | Ok _ g _ => sequence g = [1] /\ user_sequence g = [0] /\ state g = GAME_OVER
  | _ => False
  end /\
  match run_gameplay 300 init_game no_click with
  | Cut Recall g _ => sequence g = [1] /\ user_sequence g = []
  | _ => False
  end.
Proof. vm_compute. repeat split. Qed.

(** C9, as amended: the playback never polls the event queue.  In any
    state of a session, [animate_sequence] returns with the game
    unchanged (so the user trace is untouched while it runs) and with
    every event posted during its blocking calls still in the queue,
    behind what was queued before; the first poll of the recall phase
    then hands all of them to the click handlers. *)
Theorem playback_leaves_clicks_queued
    (fuel : nat) (g0 : Game) (w0 : World) (g : Game) (w : World)
    (idx : Z) (loc : Locals) :
  final_game (run_gameplay fuel g0 w0) = Some g ->
  (length (sequence g) * playback_calls <= length (timeline w))%nat ->
  let posted := concat (firstn (length (sequence g) * playback_calls) (timeline w)) in
  exists w',
    animate_sequence g w = Ok tt g w' /\
    queue w' = queue w ++ posted /\
    wait_input (S fuel) idx loc g w' =
      (loc' <- for_events (queue w ++ posted) idx loc;;
       tick Recall;;
       match user_input loc' with
       | None => wait_input fuel idx loc'
       | Some _ => ret loc'
       end) g (mkWorld [] (timeline w') (dice w') (out w')).
Proof.
  intros Hobs Hw posted.
  destruct (observed_settings _ _ _ _ Hobs) as (Hb & Hr & _).
  eexists. split; [now apply animate_sequence_runs|].
  split; reflexivity.
Qed.

Lemma playback_leaves_clicks_queued_witness :
  exists g w',
    final_game (run_gameplay 1 init_game (mkWorld [] (quiet 1) [1] [])) = Some g /\
    (length (sequence g) * playback_calls
     <= length (timeline (mkWorld [] (quiet 10 ++ [[click_on 4 0]] ++ quiet 200) [] [])))%nat /\
    sequence g = [1] /\
    animate_sequence g (mkWorld [] (quiet 10 ++ [[click_on 4 0]] ++ quiet 200) [] []) =
      Ok tt g w' /\
    queue w' = [click_on 4 0].
Proof.
  destruct (final_game (run_gameplay 1 init_game (mkWorld [] (quiet 1) [1] [])))
    as [g|] eqn:E; [|vm_compute in E; discriminate].
  assert (Hseq : sequence g = [1]) by (vm_compute in E; inversion E; reflexivity).
  assert (Hw : (length (sequence g) * playback_calls
                <= length (timeline (mkWorld [] (quiet 10 ++ [[click_on 4 0]] ++ quiet 200) [] [])))%nat)
    by (rewrite Hseq; vm_compute; repeat constructor).
  destruct (playback_leaves_clicks_queued 1 init_game (mkWorld [] (quiet 1) [1] []) g
              (mkWorld [] (quiet 10 ++ [[click_on 4 0]] ++ quiet 200) [] [])
              0 (mkLocals None true) E Hw) as (w' & Ha & Hq & _).
  exists g, w'. split; [reflexivity|]. split; [exact Hw|]. split; [exact Hseq|].
  split; [exact Ha|]. rewrite Hq, Hseq. reflexivity.
Defined.

(** ** The claim about a wrong click *)

(** What the program does at a mismatch when the poll returns the wrong
    click alone: the press is animated, the click is appended to the user
    trace, and the loop over the indices is left at once with
    [running = False]; the remaining elements of the sequence are not
    asked for. *)

Lemma bind_runs_for {A : Type} n shown (m : M unit) (k : unit -> M A) g w :
  runs_for n shown m g -> (n <= length (timeline w))%nat ->
  bind m k g w = k tt g (advance n shown w).
Proof. intros Hm Hw. unfold bind. now rewrite (Hm w Hw). Qed.

Lemma press_runs button idx loc g w expected :
  py_index (sequence g) idx = Some expected ->
  (press_calls <= length (timeline w))%nat ->
  press button idx loc g w =
  Ok (mkLocals (Some (Button.id button))
               (if Button.id button =? expected then running loc else false))
     (set_user_sequence (user_sequence g ++ [Button.id button]) g)
     (advance press_calls (press_shown (Button.id button)) w).
Proof.
  intros Hidx Hw. unfold press, press_calls in *.
  set (n := Z.to_nat HIGHLIGHT_ANIMATION_STEPS) in *.
  rewrite (bind_runs_for 0 [Highlight (Button.id button)]) by (apply runs_for_emit || lia).
  rewrite (bind_runs_for n frames);
    [|apply runs_for_animation | rewrite advance_timeline; lia].
  rewrite (bind_runs_for 1 [Delay 100]);
    [|apply runs_for_delay | rewrite !advance_timeline; lia].
  rewrite (bind_runs_for 0 [Unhighlight (Button.id button)]);
    [|apply runs_for_emit | lia].
  rewrite (bind_runs_for n frames);
    [|apply runs_for_animation | rewrite !advance_timeline; lia].
  rewrite !advance_advance.
  unfold bind, modify, get. cbn [sequence set_user_sequence]. rewrite Hidx.
  replace (0 + n + 1 + 0 + n)%nat with (2 * n + 1)%nat by lia.
  now destruct (Button.id button =? expected).
Qed.

Lemma for_buttons_find bs pos idx loc :
  for_buttons bs pos idx loc =
  match find (fun b => Button.is_clicked b pos) bs with
  | Some button => press button idx loc
  | None => ret loc
  end.
Proof.
  induction bs as [|b bs IH]; simpl; [reflexivity|].
  now destruct (Button.is_clicked b pos).
Qed.

Lemma single_mismatch_ends_recall fuel idx rest g w pos button expected :
  queue w = [MOUSEBUTTONDOWN pos] ->
  find (fun b => Button.is_clicked b pos) (buttons g) = Some button ->
  py_index (sequence g) idx = Some expected ->
  Button.id button <> expected ->
  (press_calls + 1 <= length (timeline w))%nat ->
  for_idx (S fuel) (idx :: rest) true g w =
  Ok false
     (set_user_sequence (user_sequence g ++ [Button.id button]) g)
     (advance (press_calls + 1) (press_shown (Button.id button) ++ [Tick])
              (mkWorld [] (timeline w) (dice w) (out w))).
Proof.
  intros Hq Hfind Hidx Hne Hw.
  cbn [for_idx wait_input]. unfold bind at 1 2, event_get. rewrite Hq.
  cbn [for_events]. unfold bind at 1 2 3, get. rewrite for_buttons_find, Hfind.
  rewrite (press_runs button idx _ g _ expected Hidx) by (simpl; lia).
  apply Z.eqb_neq in Hne. rewrite Hne. cbn [ret bind].
  unfold bind at 1.
  rewrite (runs_for_tick Recall) by (rewrite advance_timeline; simpl; lia).
  rewrite advance_advance. reflexivity.
Qed.

(** C3, the program at the failing input: the sequence is [1] and two
    clicks on button 0 come out of the same poll.  The first one is the
    mismatch; the second one is still collected (animated, appended to
    the user trace, compared with the same element), so the user trace
    ends as [0; 0], longer than the sequence.  The session is over and
    the score is unchanged. *)
Lemma click_collected_after_mismatch :
  match run_gameplay 300 init_game two_clicks_in_one_poll with
  | Ok _ g _ =>
      sequence g = [1] /\ user_sequence g = [0; 0] /\
      score g = 0 /\ state g = GAME_OVER
  | _ => False
  end.
Proof. vm_compute. repeat split. Qed.

(** * Further properties of the program *)

(** ** Hit testing on the grid *)

Lemma find_first {A : Type} (P : A -> bool) (l : list A) (i : nat) (x : A) :
  nth_error l i = Some x -> P x = true ->
  (forall j y, (j < i)%nat -> nth_error l j = Some y -> P y = false) ->
  find P l = Some x.
Proof.
  revert i. induction l as [|a l IH]; intros i Hx HP Hbefore.
  - destruct i; discriminate.
  - destruct i as [|i]; simpl in *.
    + inversion Hx; subst. now rewrite HP.
    + rewrite (Hbefore 0%nat a) by (auto; lia).
      apply (IH i); auto.
      intros j y Hj Hy. apply (Hbefore (S j) y); [lia | exact Hy].
Qed.

Lemma layout_nth (n : Z) (j : nat) (b : Button.t) :
  nth_error (layout n) j = Some b -> b = button_at n (Z.of_nat j) /\ Z.of_nat j < n.
Proof.
  intros H.
  assert (Hj : (j < Z.to_nat n)%nat).
  { rewrite <- layout_length. apply nth_error_Some. congruence. }
  unfold layout in H. rewrite nth_error_map, py_range_nth in H by assumption.
  simpl in H. inversion H. split; [reflexivity | lia].
Qed.

(** X1: a click whose position lies inside the rectangle of cell [i] is a
    press of button [i]: the loop over the buttons stops at that button
    and at no other one. *)
Theorem click_inside_cell_presses_it (n i : Z) (pos : Z * Z) (idx : Z) (loc : Locals) :
  1 <= n -> 0 <= i < n ->
  Rect.collidepoint (Button.rect (button_at n i)) pos = true ->
  for_buttons (layout n) pos idx loc = press (button_at n i) idx loc /\
  Button.id (button_at n i) = i /\
  forall j, 0 <= j < n -> j <> i -> Button.is_clicked (button_at n j) pos = false.
Proof.
  intros Hn Hi Hin.
  assert (Hothers : forall j, 0 <= j -> j <> i ->
                      Button.is_clicked (button_at n j) pos = false).
  { intros j Hj Hji.
    destruct (Button.is_clicked (button_at n j) pos) eqn:E; [|reflexivity].
    rewrite is_clicked_rect in E.
    pose proof (button_at_overlap n j i Hn Hj ltac:(lia) Hji) as Hov.
    rewrite (collidepoint_overlaps _ _ _ E Hin) in Hov. discriminate. }
  split; [|split; [reflexivity | intros j Hj Hji; apply Hothers; lia]].
  rewrite for_buttons_find.
  rewrite (find_first (fun b => Button.is_clicked b pos) (layout n)
             (Z.to_nat i) (button_at n i)); [reflexivity | | | ].
  - pose proof (layout_index n i Hi) as H. unfold py_index in H.
    rewrite layout_length in H.
    destruct (0 <=? i) eqn:E1; [|apply Z.leb_gt in E1; lia].
    destruct (i <? Z.of_nat (Z.to_nat n)) eqn:E2; [|apply Z.ltb_ge in E2; lia].
    exact H.
  - now rewrite is_clicked_rect.
  - intros j y Hj Hy. apply layout_nth in Hy as [-> Hjn]. apply Hothers; lia.
Qed.

Lemma click_inside_cell_presses_it_witness :
  1 <= 6 /\ 0 <= 4 < 6 /\
  Rect.collidepoint (Button.rect (button_at 6 4)) (400, 390) = true /\
  for_buttons (layout 6) (400, 390) 0 (mkLocals None true) =
    press (button_at 6 4) 0 (mkLocals None true).
Proof.
  split; [lia|]. split; [lia|]. split; [reflexivity|].
  destruct (click_inside_cell_presses_it 6 4 (400, 390) 0 (mkLocals None true))
    as (H & _); [lia | lia | reflexivity | exact H].
Defined.

Lemma for_buttons_miss (n : Z) (pos : Z * Z) (idx : Z) (loc : Locals) :
  (forall i, 0 <= i < n -> Rect.collidepoint (Button.rect (button_at n i)) pos = false) ->
  for_buttons (layout n) pos idx loc = ret loc.
Proof.
  intros Hmiss. rewrite for_buttons_find.
  destruct (find (fun b => Button.is_clicked b pos) (layout n)) as [b|] eqn:E;
    [|reflexivity].
  apply find_some in E as [Hb Hc]. apply In_nth_error in Hb as [j Hj].
  apply layout_nth in Hj as [-> Hjn].
  rewrite is_clicked_rect, Hmiss in Hc by lia. discriminate.
Qed.

(** X2: in the recall phase a poll that returns only clicks outside every
    cell (padding, margins) and events of other types changes nothing: no
    press is animated, the user trace and [running] stay as they are, and
    the wait loop ticks and polls again. *)
Theorem clicks_outside_cells_are_ignored
    (n : Z) (batch : list Event) (fuel : nat) (idx : Z) (loc : Locals)
    (g : Game) (w : World) :
  buttons g = layout n ->
  Forall (fun event =>
            match event with
            | QUIT => False
            | OTHER => True
            | MOUSEBUTTONDOWN pos =>
                forall i, 0 <= i < n ->
                  Rect.collidepoint (Button.rect (button_at n i)) pos = false
            end) batch ->
  for_events batch idx loc g w = Ok loc g w /\
  (queue w = batch -> user_input loc = None ->
   wait_input (S fuel) idx loc g w =
   (tick Recall;; wait_input fuel idx loc) g
     (mkWorld [] (timeline w) (dice w) (out w))).
Proof.
  intros Hb Hall.
  assert (Hev : forall w0, for_events batch idx loc g w0 = Ok loc g w0).
  { induction Hall as [|event rest Hevent _ IH]; intros w0; [reflexivity|].
    cbn [for_events]. unfold bind at 1.
    destruct event as [|pos|]; [contradiction | | simpl; apply IH].
    unfold bind at 1, get. rewrite Hb, (for_buttons_miss n pos idx loc Hevent).
    simpl. apply IH. }
  split; [apply Hev|].
  intros Hq Hin. cbn [wait_input]. unfold bind at 1, event_get. rewrite Hq.
  unfold bind at 1. rewrite Hev, Hin. reflexivity.
Qed.

Lemma clicks_outside_cells_are_ignored_witness :
  buttons init_game = layout 4 /\
  for_events [OTHER; MOUSEBUTTONDOWN (400, 300)] 0 (mkLocals None true) init_game
             (mkWorld [] [] [] []) =
    Ok (mkLocals None true) init_game (mkWorld [] [] [] []).
Proof.
  split; [reflexivity|].
  destruct (clicks_outside_cells_are_ignored 4 [OTHER; MOUSEBUTTONDOWN (400, 300)]
              0 0 (mkLocals None true) init_game (mkWorld [] [] [] []))
    as (H & _); [reflexivity | | exact H].
  repeat constructor. intros i Hi.
  assert (Hcases : i = 0 \/ i = 1 \/ i = 2 \/ i = 3) by lia.
  destruct Hcases as [-> | [-> | [-> | ->]]]; reflexivity.
Defined.

(** ** The grid in the window *)

Lemma grid_start_closed (n : Z) :
  grid_start n = (415 - 90 * grid_cols n, 315 - 90 * grid_rows n).
Proof.
  unfold grid_start, WIDTH, HEIGHT, BUTTON_SIZE, BUTTON_PADDING. cbv zeta.
  f_equal; Z.div_mod_to_equations; lia.
Qed.

Lemma button_at_rect (n i : Z) :
  Button.rect (button_at n i) =
  Rect.make (415 - 90 * grid_cols n + (i mod grid_cols n) * 180)
            (315 - 90 * grid_rows n + (i / grid_cols n) * 180) 150 150.
Proof. unfold button_at. rewrite grid_start_closed. reflexivity. Qed.

(** X3: with at most 12 cells, hence for every cell count of a session
    (4 to 10), every button lies entirely inside the 800 x 600 window;
    from 13 cells on the grid has four rows or more and its first row
    starts above the window. *)
Theorem grid_fits_window_up_to_twelve (n i : Z) :
  1 <= n -> 0 <= i < n ->
  (n <= 12 ->
   0 <= Rect.x (Button.rect (button_at n i)) /\
   Rect.x (Button.rect (button_at n i)) + Rect.width (Button.rect (button_at n i)) <= WIDTH /\
   0 <= Rect.y (Button.rect (button_at n i)) /\
   Rect.y (Button.rect (button_at n i)) + Rect.height (Button.rect (button_at n i)) <= HEIGHT) /\
  (13 <= n -> Rect.y (Button.rect (button_at n 0)) < 0).
Proof.
  intros Hn Hi. destruct (grid_size_spec n Hn) as (Hr & Hc & Hsq & Hrows).
  rewrite !button_at_rect. cbn [Rect.x Rect.y Rect.width Rect.height].
  set (c := grid_cols n) in *. set (r := grid_rows n) in *.
  assert (Hcol : 0 <= i mod c < c) by (apply Z.mod_pos_bound; lia).
  assert (Hrow : 0 <= i / c < r)
    by (split; [apply Z.div_pos; lia | apply Z.div_lt_upper_bound; lia]).
  unfold WIDTH, HEIGHT. split.
  - intros H12.
    assert (c <= 4) by nia. assert (r <= 3) by nia. lia.
  - intros H13. rewrite Z.div_0_l by lia.
    assert (4 <= r) by nia. lia.
Qed.

Lemma grid_fits_window_up_to_twelve_witness :
  1 <= 10 /\ 0 <= 9 < 10 /\
  Rect.x (Button.rect (button_at 10 9)) + Rect.width (Button.rect (button_at 10 9)) <= WIDTH.
Proof.
  split; [lia|]. split; [lia|].
  destruct (grid_fits_window_up_to_twelve 10 9) as (H & _); [lia | lia |].
  destruct H as (_ & H & _); [lia | exact H].
Defined.

(** X4: the grid is centred in the window: the margin left of the first
    column equals the margin right of the last column, and the margin
    above the first row equals the margin below the last row (the row of
    the last button). *)
Theorem grid_is_centred (n : Z) :
  1 <= n ->
  0 <= grid_cols n - 1 < n /\
  Rect.x (Button.rect (button_at n 0)) =
    WIDTH - (Rect.x (Button.rect (button_at n (grid_cols n - 1))) + BUTTON_SIZE) /\
  Rect.y (Button.rect (button_at n 0)) =
    HEIGHT - (Rect.y (Button.rect (button_at n (n - 1))) + BUTTON_SIZE).
Proof.
  intros Hn. destruct (grid_size_spec n Hn) as (Hr & Hc & Hsq & Hrows).
  rewrite !button_at_rect. cbn [Rect.x Rect.y].
  set (c := grid_cols n) in *. set (r := grid_rows n) in *.
  assert (Hcn : c - 1 < n) by nia.
  rewrite Z.mod_0_l, Z.div_0_l by lia.
  rewrite (Z.mod_small (c - 1) c) by lia.
  assert (Hlast : (n - 1) / c = r - 1).
  { symmetry. apply (Z.div_unique_pos (n - 1) c (r - 1) (n - 1 - c * (r - 1))); lia. }
  rewrite Hlast. unfold WIDTH, HEIGHT, BUTTON_SIZE. lia.
Qed.

Lemma grid_is_centred_witness :
  1 <= 10 /\
  Rect.x (Button.rect (button_at 10 0)) =
    WIDTH - (Rect.x (Button.rect (button_at 10 (grid_cols 10 - 1))) + BUTTON_SIZE).
Proof.
  split; [lia|].
  destruct (grid_is_centred 10) as (_ & H & _); [lia | exact H].
Defined.

(** ** [add_buttons] with any count *)

Lemma set_num_buttons_same g : set_num_buttons (num_buttons g) g = g.
Proof. now destruct g. Qed.

Lemma guarded_increments {A : Type} (l : list A) g w :
  for_each l (fun _ =>
    g <- get;;
    if num_buttons g <? max_buttons g
    then modify (set_num_buttons (num_buttons g + 1))
    else ret tt) g w =
  Ok tt (set_num_buttons
           (Z.max (num_buttons g)
                  (Z.min (num_buttons g + Z.of_nat (length l)) (max_buttons g))) g) w.
Proof.
  revert g. induction l as [|a l IH]; intros g.
  - simpl. rewrite Z.add_0_r.
    replace (Z.max (num_buttons g) (Z.min (num_buttons g) (max_buttons g)))
      with (num_buttons g) by lia.
    now rewrite set_num_buttons_same.
  - cbn [for_each length]. unfold bind at 1 2, get.
    destruct (num_buttons g <? max_buttons g) eqn:E;
      [apply Z.ltb_lt in E | apply Z.ltb_ge in E].
    + unfold modify at 1. rewrite IH. cbn [num_buttons max_buttons set_num_buttons].
      replace (Z.max (num_buttons g)
                 (Z.min (num_buttons g + Z.of_nat (S (length l))) (max_buttons g)))
        with (Z.max (num_buttons g + 1)
                (Z.min (num_buttons g + 1 + Z.of_nat (length l)) (max_buttons g)))
        by lia.
      now destruct g.
    + unfold ret at 1. rewrite IH.
      replace (Z.max (num_buttons g)
                 (Z.min (num_buttons g + Z.of_nat (S (length l))) (max_buttons g)))
        with (Z.max (num_buttons g)
                (Z.min (num_buttons g + Z.of_nat (length l)) (max_buttons g)))
        by lia.
      reflexivity.
Qed.

(** X5: [add_buttons(count)] adds [count] cells but never goes beyond the
    maximum: the new count is [min(current + count, maximum)] when the
    current one is below the maximum, and it is unchanged when the count
    is at or above the maximum already or when [count <= 0]; the grid is
    rebuilt for the new count and nothing else changes. *)
Theorem add_buttons_never_exceeds_maximum (count : Z) (g : Game) (w : World) :
  0 <= num_buttons g ->
  let cells := Z.max (num_buttons g)
                     (Z.min (num_buttons g + Z.max 0 count) (max_buttons g)) in
  add_buttons count g w = Ok tt (set_buttons (layout cells) (set_num_buttons cells g)) w /\
  num_buttons g <= cells /\
  (num_buttons g <= max_buttons g -> cells <= max_buttons g) /\
  (num_buttons g < max_buttons g -> 0 <= count ->
   cells = Z.min (num_buttons g + count) (max_buttons g)) /\
  (max_buttons g <= num_buttons g \/ count <= 0 -> cells = num_buttons g).
Proof.
  intros Hn cells. split; [|unfold cells; lia].
  unfold add_buttons, bind at 1. rewrite guarded_increments.
  rewrite py_range_length.
  replace (Z.of_nat (Z.to_nat count)) with (Z.max 0 count) by lia. fold cells.
  unfold bind at 1, get. cbn [num_buttons set_num_buttons].
  rewrite create_buttons_layout by (unfold cells; lia). reflexivity.
Qed.

Lemma add_buttons_never_exceeds_maximum_witness :
  0 <= num_buttons init_game /\
  add_buttons 100 init_game (mkWorld [] [] [] []) =
    Ok tt (set_buttons (layout 10) (set_num_buttons 10 init_game)) (mkWorld [] [] [] []).
Proof.
  split; [vm_compute; discriminate|].
  destruct (add_buttons_never_exceeds_maximum 100 init_game (mkWorld [] [] [] []))
    as (H & _); [vm_compute; discriminate | exact H].
Defined.

(** ** The menus and the state machine of [Game.run] *)

Lemma choose_runs d g w : choose d g w = Ok tt (apply_choice d g) w.
Proof. destruct d; reflexivity. Qed.

Lemma title_events_cases batch g w :
  title_events batch g w = Ok tt g w \/
  title_events batch g w = Ok tt (set_state DIFFICULTY g) w \/
  title_events batch g w = Exit g w.
Proof.
  induction batch as [|[|pos|] rest IH]; simpl; auto.
  destruct (Rect.collidepoint start_button_rect pos); auto.
Qed.

Lemma difficulty_events_cases batch g w :
  difficulty_events batch g w = Ok tt g w \/
  (exists d, difficulty_events batch g w = Ok tt (apply_choice d g) w) \/
  difficulty_events batch g w = Exit g w.
Proof.
  induction batch as [|[|pos|] rest IH]; simpl; auto.
  destruct (Rect.collidepoint normal_button_rect pos).
  - right. left. exists Normal. exact (choose_runs Normal g w).
  - destruct (Rect.collidepoint fast_button_rect pos); auto.
    right. left. exists Fast. exact (choose_runs Fast g w).
Qed.

Lemma game_over_events_cases batch g w :
  game_over_events batch g w = Ok tt g w \/
  game_over_events batch g w = Ok tt (set_state TITLE g) w \/
  game_over_events batch g w = Exit g w.
Proof.
  induction batch as [|[|pos|] rest IH]; simpl; auto.
  destruct (Rect.collidepoint restart_button_rect pos); auto.
Qed.

(** One pass of a menu: draw, poll, handle, flip, tick. *)
Lemma menu_pass (shown : Out) (events : list Event -> M unit) (ph : Phase) g w g1 :
  events (queue w) g (mkWorld [] (timeline w) (dice w) (out w ++ [shown])) =
    Ok tt g1 (mkWorld [] (timeline w) (dice w) (out w ++ [shown])) ->
  final_game ((emit shown;; batch <- event_get;; events batch;; emit Flip;; tick ph) g w)
  = Some g1.
Proof.
  intros H. unfold bind at 1, emit at 1. unfold bind at 1, event_get.
  cbn [queue timeline dice out]. unfold bind at 1. rewrite H.
  unfold bind, emit, tick, elapse. cbn [timeline].
  now destruct (timeline w).
Qed.

Lemma menu_exit (shown : Out) (events : list Event -> M unit) (ph : Phase) g w :
  events (queue w) g (mkWorld [] (timeline w) (dice w) (out w ++ [shown])) =
    Exit g (mkWorld [] (timeline w) (dice w) (out w ++ [shown])) ->
  final_game ((emit shown;; batch <- event_get;; events batch;; emit Flip;; tick ph) g w)
  = Some g.
Proof.
  intros H. unfold bind at 1, emit at 1. unfold bind at 1, event_get.
  cbn [queue timeline dice out]. unfold bind at 1. now rewrite H.
Qed.

Lemma run_iteration_unfold fuel g w :
  run_iteration fuel g w =
  match state g with
  | TITLE =>
      (emit TitleScreen;; batch <- event_get;; title_events batch;;
       emit Flip;; tick InTitle) g w
  | DIFFICULTY =>
      (emit DifficultyScreen;; batch <- event_get;; difficulty_events batch;;
       emit Flip;; tick InDifficulty) g w
  | GAME => (run_gameplay fuel;; modify (set_state GAME_OVER)) g w
  | GAME_OVER =>
      (emit (GameOverScreen (score g));; batch <- event_get;; game_over_events batch;;
       emit Flip;; tick InGameOver) g w
  end.
Proof. unfold run_iteration, bind at 1, get. now destruct (state g). Qed.

(** What one pass of [while True] can make of the game. *)
Lemma run_iteration_cases fuel g w g' :
  final_game (run_iteration fuel g w) = Some g' ->
  match state g with
  | TITLE => g' = g \/ g' = set_state DIFFICULTY g
  | DIFFICULTY => g' = g \/ exists d, g' = apply_choice d g
  | GAME =>
      (exists extra, session_inv g extra g' /\ (extra = 0 \/ extra = 1)) \/
      (exists g1, session_inv g 1 g1 /\ g' = set_state GAME_OVER g1)
  | GAME_OVER => g' = g \/ g' = set_state TITLE g
  end.
Proof.
  rewrite run_iteration_unfold. destruct (state g) eqn:Es.
  - intros H.
    destruct (title_events_cases (queue w) g
                (mkWorld [] (timeline w) (dice w) (out w ++ [TitleScreen])))
      as [E | [E | E]].
    + rewrite (menu_pass _ _ _ _ _ _ E) in H. inversion H. auto.
    + rewrite (menu_pass _ _ _ _ _ _ E) in H. inversion H. auto.
    + rewrite (menu_exit _ _ _ _ _ E) in H. inversion H. auto.
  - intros H.
    destruct (difficulty_events_cases (queue w) g
                (mkWorld [] (timeline w) (dice w) (out w ++ [DifficultyScreen])))
      as [E | [[d E] | E]].
    + rewrite (menu_pass _ _ _ _ _ _ E) in H. inversion H. auto.
    + rewrite (menu_pass _ _ _ _ _ _ E) in H. inversion H. eauto.
    + rewrite (menu_exit _ _ _ _ _ E) in H. inversion H. auto.
  - unfold bind at 1. intros H.
    pose proof (run_gameplay_spec fuel g w) as Hs.
    destruct (run_gameplay fuel g w) as [[] g1 w1|g1 w1|e g1 w1|ph g1 w1|];
      simpl in *; try contradiction; try discriminate.
    + destruct Hs as (g2 & Hinv & ->). inversion H. right. exists g2.
      split; [exact Hinv | now destruct g2].
    + inversion H; subst. left. exists 1. auto.
    + inversion H; subst. left. unfold session_cut in Hs.
      destruct ph; simpl in Hs; try contradiction; eauto.
  - intros H.
    destruct (game_over_events_cases (queue w) g
                (mkWorld [] (timeline w) (dice w) (out w ++ [GameOverScreen (score g)])))
      as [E | [E | E]].
    + rewrite (menu_pass _ _ _ _ _ _ E) in H. inversion H. auto.
    + rewrite (menu_pass _ _ _ _ _ _ E) in H. inversion H. auto.
    + rewrite (menu_exit _ _ _ _ _ E) in H. inversion H. auto.
Qed.

(** X6: the state machine of [Game.run].  One pass of the loop moves
    [state] along an edge of Title -> Difficulty -> Game -> GameOver ->
    Title or leaves it; the menus never touch the fields of the session
    (the score of the last session stays for the game-over screen); and
    [GAME] is entered only from the difficulty screen, with the profile of
    the button that was clicked. *)
Theorem run_follows_the_state_machine (fuel : nat) (g : Game) (w : World) (g' : Game) :
  final_game (run_iteration fuel g w) = Some g' ->
  allowed (state g) (state g') /\
  (state g <> GAME -> session_fields g' = session_fields g) /\
  (state g <> GAME -> state g' = GAME ->
   state g = DIFFICULTY /\ chosen (difficulty g') g') /\
  (state g <> DIFFICULTY ->
   difficulty g' = difficulty g /\ display_speed g' = display_speed g /\
   fast_display_speed g' = fast_display_speed g).
Proof.
  intros H. pose proof (run_iteration_cases fuel g w g' H) as Hc.
  destruct (state g) eqn:Es.
  - destruct Hc as [-> | ->]; rewrite ?Es; simpl; repeat split; auto; try congruence.
  - destruct Hc as [-> | [d ->]]; rewrite ?Es; simpl; repeat split; auto;
      try congruence; now destruct d.
  - destruct Hc as [(extra & [] & _) | (g1 & [] & ->)]; simpl;
      repeat split; try congruence; rewrite ?inv_state0, ?Es; simpl; auto.
  - destruct Hc as [-> | ->]; rewrite ?Es; simpl; repeat split; auto; try congruence.
Qed.

Lemma run_follows_the_state_machine_witness :
  exists g',
    final_game (run_iteration 1 (set_state DIFFICULTY init_game)
                  (mkWorld [MOUSEBUTTONDOWN (400, 280)] [[]] [] [])) = Some g' /\
    state g' = GAME /\ difficulty g' = Normal /\ allowed DIFFICULTY (state g').
Proof.
  destruct (final_game (run_iteration 1 (set_state DIFFICULTY init_game)
                          (mkWorld [MOUSEBUTTONDOWN (400, 280)] [[]] [] [])))
    as [g'|] eqn:E; [|vm_compute in E; discriminate].
  destruct (run_follows_the_state_machine 1 (set_state DIFFICULTY init_game)
              (mkWorld [MOUSEBUTTONDOWN (400, 280)] [[]] [] []) g' E) as (Ha & _).
  exists g'. split; [reflexivity|].
  vm_compute in E. inversion E; subst. repeat split.
Defined.

(** ** The whole program, from [Game()] on *)

Lemma program_inv_init : program_inv init_game.
Proof.
  constructor.
  - reflexivity.
  - repeat split.
  - simpl. lia.
  - reflexivity.
  - reflexivity.
  - constructor.
  - now left.
  - discriminate.
Qed.

Lemma program_inv_session g extra g' :
  program_inv g -> session_inv g extra g' -> extra = 0 \/ extra = 1 ->
  state g = GAME ->
  program_inv g'.
Proof.
  intros [] [] He Hs. constructor.
  - congruence.
  - unfold chosen in *. rewrite inv_difficulty0, inv_display0, inv_fast0. assumption.
  - assumption.
  - congruence.
  - assumption.
  - assumption.
  - lia.
  - congruence.
Qed.

Lemma program_inv_over g g1 :
  program_inv g -> session_inv g 1 g1 -> program_inv (set_state GAME_OVER g1).
Proof.
  intros [] []. constructor; simpl.
  - congruence.
  - unfold chosen in *. simpl. rewrite inv_difficulty0, inv_display0, inv_fast0. assumption.
  - assumption.
  - congruence.
  - assumption.
  - assumption.
  - now right.
  - intros _. assumption.
Qed.

Lemma program_inv_choice d g :
  program_inv g -> state g = DIFFICULTY -> program_inv (apply_choice d g).
Proof.
  intros [] Hs. constructor; simpl; auto.
  - now destruct d.
  - discriminate.
Qed.

Lemma program_inv_menu s g :
  program_inv g -> s <> GAME_OVER -> program_inv (set_state s g).
Proof.
  intros [] Hs. constructor; simpl; auto. intros E. contradiction.
Qed.

Lemma program_inv_iteration fuel g w g' :
  program_inv g ->
  final_game (run_iteration fuel g w) = Some g' ->
  program_inv g'.
Proof.
  intros Hinv H. pose proof (run_iteration_cases fuel g w g' H) as Hc.
  destruct (state g) eqn:Es.
  - destruct Hc as [-> | ->]; [assumption|].
    apply program_inv_menu; [assumption | discriminate].
  - destruct Hc as [-> | [d ->]]; [assumption | now apply program_inv_choice].
  - destruct Hc as [(extra & Hs & He) | (g1 & Hs & ->)].
    + now apply (program_inv_session g extra).
    + now apply (program_inv_over g).
  - destruct Hc as [-> | ->]; [assumption|].
    apply program_inv_menu; [assumption | discriminate].
Qed.

Lemma run_iteration_never_raises fuel g w e g' w' :
  run_iteration fuel g w <> Raise e g' w'.
Proof.
  rewrite run_iteration_unfold. intros H.
  assert (Hmenu : forall shown events ph,
            (forall batch g0 w0, events batch g0 w0 = Ok tt g0 w0 \/
               (exists g1, events batch g0 w0 = Ok tt g1 w0) \/
               events batch g0 w0 = Exit g0 w0) ->
            (emit shown;; batch <- event_get;; events batch;; emit Flip;; tick ph) g w
            <> Raise e g' w').
  { intros shown events ph Hev. unfold bind at 1, emit at 1. unfold bind at 1, event_get.
    cbn [queue timeline dice out]. unfold bind at 1.
    destruct (Hev (queue w) g (mkWorld [] (timeline w) (dice w) (out w ++ [shown])))
      as [E | [[g1 E] | E]]; rewrite E; try discriminate;
      unfold bind, emit, tick, elapse; cbn [timeline];
      destruct (timeline w); discriminate. }
  destruct (state g).
  - revert H. apply Hmenu. intros batch g0 w0.
    destruct (title_events_cases batch g0 w0) as [E | [E | E]]; eauto.
  - revert H. apply Hmenu. intros batch g0 w0.
    destruct (difficulty_events_cases batch g0 w0) as [E | [[d E] | E]]; eauto.
  - unfold bind at 1 in H. pose proof (run_gameplay_spec fuel g w) as Hs.
    destruct (run_gameplay fuel g w) as [[] g1 w1|g1 w1|e1 g1 w1|ph g1 w1|];
      simpl in *; try contradiction; discriminate.
  - revert H. apply Hmenu. intros batch g0 w0.
    destruct (game_over_events_cases batch g0 w0) as [E | [E | E]]; eauto.
Qed.

(** X7: the program as a whole.  [Game.run], started on the object built
    by [Game()], never returns and never raises: a run ends at
    [sys.exit()] or goes on.  In every state it can be observed in,
    through any number of sessions and menus: the maximum is 10, the two
    speeds are those of the current difficulty, the cell count is
    [min 10 (4 + 2 * (score / 5))] (between 4 and 10), the grid is the one
    of that count, every element of the sequence indexes it, and on the
    game-over screen the sequence is one longer than the score shown. *)
Theorem run_keeps_the_game_consistent (fuel : nat) (w : World) (g' : Game) :
  final_game (run fuel init_game w) = Some g' ->
  program_inv g' /\
  4 <= num_buttons g' <= 10 /\
  Z.of_nat (length (buttons g')) = num_buttons g' /\
  (highlight_delay g' = 500 \/ highlight_delay g' = 50) /\
  (forall w', run fuel init_game w <> Ok tt g' w') /\
  (forall e w', run fuel init_game w <> Raise e g' w').
Proof.
  assert (Hrun : forall fuel g w g',
            program_inv g ->
            final_game (run fuel g w) = Some g' ->
            program_inv g' /\
            (forall w', run fuel g w <> Ok tt g' w') /\
            (forall e w', run fuel g w <> Raise e g' w')).
  { clear. induction fuel as [|fuel IH]; intros g w g' Hinv H; [discriminate|].
    cbn [run] in *. unfold bind in *.
    pose proof (program_inv_iteration fuel g w) as Hit.
    pose proof (run_iteration_never_raises fuel g w) as Hnr.
    destruct (run_iteration fuel g w) as [[] g1 w1|g1 w1|e g1 w1|ph g1 w1|];
      simpl in *.
    - apply (IH g1 w1 g' (Hit g1 Hinv eq_refl) H).
    - inversion H; subst. split; [apply (Hit g' Hinv eq_refl)|]. split; discriminate.
    - exfalso. apply (Hnr e g1 w1). reflexivity.
    - inversion H; subst. split; [apply (Hit g' Hinv eq_refl)|]. split; discriminate.
    - discriminate. }
  intros H. destruct (Hrun fuel init_game w g' program_inv_init H) as (Hinv & Hok & Hraise).
  split; [exact Hinv|]. destruct Hinv as [Hmax Hprof Hscore Hcells Hb _ _ _].
  assert (Hrange : 4 <= num_buttons g' <= 10).
  { rewrite Hcells. unfold grown, MAX_BUTTONS.
    assert (0 <= score g' / 5) by (apply Z.div_pos; lia). lia. }
  split; [exact Hrange|].
  split; [rewrite Hb, layout_length; lia|].
  split; [|split; assumption].
  unfold highlight_delay. destruct Hprof as (_ & Hd & Hf).
  destruct (difficulty g'); rewrite ?Hd, ?Hf; auto.
Qed.

Lemma run_keeps_the_game_consistent_witness :
  exists g',
    final_game (run 10 init_game
                  (mkWorld []
                     ([[MOUSEBUTTONDOWN (400, 380)]; []; [MOUSEBUTTONDOWN (400, 380)]; []]
                      ++ quiet 3) [3] [])) = Some g' /\
    state g' = GAME /\ num_buttons g' = 4 /\ highlight_delay g' = 50.
Proof.
  destruct (final_game (run 10 init_game
                  (mkWorld []
                     ([[MOUSEBUTTONDOWN (400, 380)]; []; [MOUSEBUTTONDOWN (400, 380)]; []]
                      ++ quiet 3) [3] []))) as [g'|] eqn:E;
    [|vm_compute in E; discriminate].
  destruct (run_keeps_the_game_consistent 10 _ g' E) as (_ & _ & _ & _ & _).
  exists g'. split; [reflexivity|].
  vm_compute in E. inversion E; subst. repeat split.
Defined.

(** X8: the Start button of the title screen and the Fast button of the
    difficulty screen are the same rectangle, and a click that changes
    the screen ends the handling of its poll.  So when the poll of a
    title pass returns a click on Start and the same click position comes
    again in the next poll (a double click), the two passes lead straight
    into a Fast session. *)
Theorem double_click_on_start_selects_fast
    (fuel : nat) (pos : Z * Z) (rest1 rest2 posted : list Event)
    (later : list (list Event)) (g : Game) (w : World) :
  state g = TITLE ->
  Rect.collidepoint start_button_rect pos = true ->
  queue w = MOUSEBUTTONDOWN pos :: rest1 ->
  timeline w = (MOUSEBUTTONDOWN pos :: rest2) :: posted :: later ->
  (run_iteration fuel;; run_iteration fuel) g w =
  Ok tt (apply_choice Fast g)
     (mkWorld posted later (dice w)
        (out w ++ [TitleScreen; Flip; Tick; DifficultyScreen; Flip; Tick])).
Proof.
  intros Hs Hstart Hq Ht.
  assert (Hfast : Rect.collidepoint fast_button_rect pos = true) by exact Hstart.
  assert (Hnormal : Rect.collidepoint normal_button_rect pos = false).
  { destruct pos as [px py]. unfold Rect.collidepoint in *. simpl in *.
    apply andb_false_iff. right.
    apply andb_true_iff in Hstart as [Hstart _].
    apply andb_true_iff in Hstart as [_ Hy].
    apply Z.leb_le in Hy. apply Z.ltb_ge. lia. }
  unfold bind at 1. rewrite run_iteration_unfold, Hs.
  unfold bind at 1, emit at 1. unfold bind at 1, event_get.
  cbn [queue timeline dice out]. rewrite Hq. unfold bind at 1.
  cbn [title_events]. rewrite Hstart. unfold modify at 1.
  unfold bind at 1, emit at 1. unfold tick, bind at 1, emit at 1, elapse.
  cbn [queue timeline dice out]. rewrite Ht.
  rewrite run_iteration_unfold. cbn [state set_state].
  unfold bind at 1, emit at 1. unfold bind at 1, event_get.
  cbn [queue timeline dice out app]. unfold bind at 1.
  cbn [difficulty_events]. rewrite Hnormal, Hfast, choose_runs.
  unfold bind, emit, elapse. cbn [queue timeline dice out].
  rewrite <- !app_assoc. simpl.
  unfold tick, bind, emit, elapse. simpl. rewrite <- app_assoc. simpl. now destruct g.
Qed.

Lemma double_click_on_start_selects_fast_witness :
  state init_game = TITLE /\
  Rect.collidepoint start_button_rect (400, 380) = true /\
  (run_iteration 1;; run_iteration 1) init_game
    (mkWorld [MOUSEBUTTONDOWN (400, 380)] [[MOUSEBUTTONDOWN (400, 380)]; []] [] []) =
  Ok tt (apply_choice Fast init_game)
     (mkWorld [] [] [] [TitleScreen; Flip; Tick; DifficultyScreen; Flip; Tick]).
Proof.
  split; [reflexivity|]. split; [reflexivity|].
  apply (double_click_on_start_selects_fast 1 (400, 380) [] [] [] [] init_game
           (mkWorld [MOUSEBUTTONDOWN (400, 380)] [[MOUSEBUTTONDOWN (400, 380)]; []] [] []));
    reflexivity.
Defined.

(** ** What the recall phase appends to the user trace *)

Lemma appended_nil g : appended [] g = g.
Proof. unfold appended. rewrite app_nil_r. now destruct g. Qed.

Lemma appended_appended ids1 ids2 g :
  appended ids2 (appended ids1 g) = appended (ids1 ++ ids2) g.
Proof. unfold appended. simpl. now rewrite app_assoc. Qed.

Section Answers.
Variables (idx expected : Z).

Lemma for_buttons_answer bs pos loc g w :
  py_index (sequence g) idx = Some expected ->
  post (fun _ _ _ => True) (fun _ _ => True) True
       (for_buttons bs pos idx loc g w)
       (fun loc' g' _ =>
          (loc' = loc /\ g' = g) \/
          exists b, In b bs /\ g' = appended [Button.id b] g /\
            loc' = mkLocals (Some (Button.id b))
                            (if Button.id b =? expected then running loc else false)).
Proof.
  intros Hidx. rewrite for_buttons_find.
  destruct (find (fun b => Button.is_clicked b pos) bs) as [b|] eqn:E.
  - apply find_some in E as [Hb _].
    eapply post_mono; [apply (press_spec b idx loc g w expected Hidx) | | | | ];
      cbv beta; auto.
    intros loc' g' w' (-> & _ & ->). right. now exists b.
  - simpl. now left.
Qed.

Lemma for_events_answer batch loc g w :
  py_index (sequence g) idx = Some expected ->
  post (fun _ _ _ => True) (fun _ _ => True) True
       (for_events batch idx loc g w)
       (fun loc' g' _ =>
          exists ids,
            g' = appended ids g /\
            Forall (names_button (buttons g)) ids /\
            running loc' = running loc && forallb (fun v => v =? expected) ids /\
            (ids = [] -> user_input loc' = user_input loc) /\
            (ids <> [] -> user_input loc' <> None)).
Proof.
  revert loc g w. induction batch as [|event rest IH]; intros loc g w Hidx.
  - simpl. exists []. rewrite appended_nil, andb_true_r. repeat split; auto.
  - cbn [for_events]. apply post_bind. destruct event as [|pos|].
    + simpl. exact I.
    + unfold bind at 1, get.
      eapply post_mono; [apply (for_buttons_answer (buttons g) pos loc g w Hidx) | | | | ];
        cbv beta; auto.
      intros loc1 g1 w1 [(-> & ->) | (b & Hb & -> & ->)].
      * apply IH, Hidx.
      * eapply post_mono; [apply (IH _ (appended [Button.id b] g) w1 Hidx) | | | | ];
          cbv beta; auto.
        intros loc2 g2 w2 (ids & -> & Hids & Hrun & Hsame & Hsome).
        exists (Button.id b :: ids). rewrite appended_appended.
        split; [reflexivity|]. split; [constructor; [now exists b | exact Hids]|].
        split; [|split; [discriminate|]].
        -- rewrite Hrun. cbn [running forallb].
           destruct (Button.id b =? expected); [reflexivity|].
           now rewrite andb_false_r.
        -- intros _. destruct ids as [|i ids].
           ++ rewrite Hsame by reflexivity. discriminate.
           ++ apply Hsome. discriminate.
    + simpl. apply IH, Hidx.
Qed.

Lemma wait_input_answer fuel loc g w :
  py_index (sequence g) idx = Some expected ->
  user_input loc = None ->
  post (fun _ _ _ => True) (fun _ _ => True) True
       (wait_input fuel idx loc g w)
       (fun loc' g' _ =>
          exists ids,
            ids <> [] /\ g' = appended ids g /\
            Forall (names_button (buttons g)) ids /\
            running loc' = running loc && forallb (fun v => v =? expected) ids).
Proof.
  revert loc g w. induction fuel as [|fuel IH]; intros loc g w Hidx Hin.
  - exact I.
  - cbn [wait_input]. unfold bind at 1, event_get. apply post_bind.
    eapply post_mono;
      [apply (for_events_answer (queue w) loc g
                (mkWorld [] (timeline w) (dice w) (out w)) Hidx) | | | | ];
      cbv beta; auto.
    intros loc1 g1 w1 (ids & -> & Hids & Hrun & Hsame & Hsome).
    apply post_blocking; [auto|]. intros w2 _.
    destruct (user_input loc1) eqn:E1.
    + simpl. exists ids. split; [|auto].
      intros Hnil. specialize (Hsame Hnil). congruence.
    + assert (ids = []) as -> by (destruct ids; [reflexivity | exfalso; now apply Hsome]).
      rewrite appended_nil. simpl in Hrun. rewrite andb_true_r in Hrun.
      eapply post_mono; [apply (IH loc1 g w2 Hidx E1) | | | | ]; cbv beta; auto.
      intros loc2 g2 w3 (ids2 & Hne & -> & Hids2 & Hrun2).
      exists ids2. rewrite Hrun2, Hrun. auto.
Qed.
End Answers.

Lemma replayed_chunk_false v steps ids :
  ids <> [] -> forallb (fun u => u =? v) ids = false -> replayed (v :: steps) ids false.
Proof.
  intros Hne Hf. apply replayed_wrong; [exact Hne|].
  apply Exists_exists.
  destruct (existsb (fun u => negb (u =? v)) ids) eqn:E.
  - apply existsb_exists in E as (u & Hu & Hneq). exists u. split; [exact Hu|].
    apply negb_true_iff, Z.eqb_neq in Hneq. exact Hneq.
  - assert (Hall : forallb (fun u => u =? v) ids = true); [|congruence].
    apply forallb_forall. intros u Hu.
    destruct (u =? v) eqn:Euv; [reflexivity|].
    assert (existsb (fun u => negb (u =? v)) ids = true)
      by (apply existsb_exists; exists u; now rewrite Euv).
    congruence.
Qed.

Lemma for_idx_answer fuel idxs steps g w :
  Forall2 (fun i v => py_index (sequence g) i = Some v) idxs steps ->
  post (fun _ _ _ => True) (fun _ _ => True) True
       (for_idx fuel idxs true g w)
       (fun ok g' _ =>
          exists extra,
            g' = appended extra g /\
            Forall (names_button (buttons g)) extra /\
            replayed steps extra ok).
Proof.
  intros Hsteps. revert g w Hsteps.
  induction idxs as [|i rest IH] in steps |- *; intros g w Hsteps.
  - inversion Hsteps; subst. simpl. exists []. rewrite appended_nil.
    repeat split; constructor.
  - inversion Hsteps as [|? v ? steps' Hi Hrest]; subst.
    cbn [for_idx]. apply post_bind.
    eapply post_mono;
      [apply (wait_input_answer i v fuel (mkLocals None true) g w Hi eq_refl) | | | | ];
      cbv beta; auto.
    intros loc1 g1 w1 (ids & Hne & -> & Hids & Hrun). cbn [running andb] in Hrun.
    rewrite Hrun. destruct (forallb (fun u => u =? v) ids) eqn:Ef; cbn [negb].
    + eapply post_mono; [apply (IH steps' (appended ids g) w1 Hrest) | | | | ];
        cbv beta; auto.
      intros ok g2 w2 (extra & -> & Hextra & Hrep).
      exists (ids ++ extra). rewrite appended_appended.
      split; [reflexivity|]. split; [apply Forall_app; split; assumption|].
      apply replayed_step; auto.
      apply Forall_forall. intros u Hu.
      rewrite forallb_forall in Ef. specialize (Ef u Hu). apply Z.eqb_eq in Ef. auto.
    + simpl. exists ids. repeat split; auto. now apply replayed_chunk_false.
Qed.

Lemma py_index_app_mid {A : Type} (pre l : list A) (a : A) :
  py_index (pre ++ a :: l) (Z.of_nat (length pre)) = Some a.
Proof.
  unfold py_index. rewrite length_app. cbn [length].
  destruct (0 <=? Z.of_nat (length pre)) eqn:E1; [|apply Z.leb_gt in E1; lia].
  destruct (Z.of_nat (length pre) <? Z.of_nat (length pre + S (length l))) eqn:E2;
    [|apply Z.ltb_ge in E2; lia].
  cbn [andb]. rewrite Nat2Z.id, nth_error_app2 by lia.
  now rewrite Nat.sub_diag.
Qed.

Lemma py_range_steps (l : list Z) :
  Forall2 (fun i v => py_index l i = Some v) (py_range (Z.of_nat (length l))) l.
Proof.
  unfold py_range. rewrite Nat2Z.id.
  assert (H : forall pre rest : list Z,
            Forall2 (fun i v => py_index (pre ++ rest) i = Some v)
                    (map Z.of_nat (seq (length pre) (length rest))) rest).
  { intros pre rest. revert pre. induction rest as [|a rest IH]; intros pre.
    - constructor.
    - cbn [length seq map]. constructor; [apply py_index_app_mid|].
      specialize (IH (pre ++ [a])). rewrite <- app_assoc, length_app in IH.
      cbn [length app] in IH. now rewrite Nat.add_1_r in IH. }
  exact (H [] l).
Qed.

Lemma replayed_true_length steps trace :
  replayed steps trace true -> (length steps <= length trace)%nat.
Proof.
  intros H. remember true as ok eqn:Eok.
  induction H as [|v steps chunk trace ok Hne Hall Hrep IH|]; [auto | | discriminate].
  rewrite length_app. cbn [length]. specialize (IH Eok).
  destruct chunk; [contradiction | simpl; lia].
Qed.

Lemma replayed_true_exact steps trace :
  replayed steps trace true -> length trace = length steps -> trace = steps.
Proof.
  intros H. remember true as ok eqn:Eok.
  induction H as [|v steps chunk trace ok Hne Hall Hrep IH|]; [auto | | discriminate].
  subst ok. pose proof (replayed_true_length _ _ Hrep) as Hlen.
  rewrite length_app. cbn [length]. intros Hl.
  destruct chunk as [|u [|u' chunk]]; [contradiction | | simpl in Hl; lia].
  inversion Hall; subst. simpl in *. f_equal. apply IH; [reflexivity | lia].
Qed.

Lemma replayed_false_wrong steps trace :
  replayed steps trace false ->
  exists u v, In u trace /\ In v steps /\ u <> v.
Proof.
  intros H. remember false as ok eqn:Eok.
  induction H as [|v steps chunk trace ok Hne Hall Hrep IH|v steps chunk Hne Hex];
    [discriminate | | ].
  - destruct (IH Eok) as (u & v' & Hu & Hv & Huv).
    exists u, v'. split; [apply in_or_app; now right|]. split; [now right | exact Huv].
  - apply Exists_exists in Hex as (u & Hu & Huv).
    exists u, v. split; [exact Hu|]. split; [now left | exact Huv].
Qed.

(** X9: what a recall phase that comes to its end has appended to the
    user trace.  The result is a replay of the sequence in the sense of
    [replayed]: for each element in turn, all the clicks of the poll that
    answered it.  [running] is still true (the round counts) only if
    every such click equalled its element; then the trace is at least as
    long as the sequence, and equal to it when it has the same length.
    When [running] is false some click differed from an element. *)
Theorem recall_appends_a_replay
    (fuel : nat) (g : Game) (w : World) (ok : bool) (g' : Game) (w' : World) :
  for_idx fuel (py_range (Z.of_nat (length (sequence g)))) true g w = Ok ok g' w' ->
  exists extra,
    g' = appended extra g /\
    replayed (sequence g) extra ok /\
    (ok = true ->
     (length (sequence g) <= length extra)%nat /\
     (length extra = length (sequence g) -> extra = sequence g)) /\
    (ok = false -> exists u v, In u extra /\ In v (sequence g) /\ u <> v).
Proof.
  intros H.
  pose proof (for_idx_answer fuel _ _ g w (py_range_steps (sequence g))) as Hpost.
  rewrite H in Hpost. simpl in Hpost. destruct Hpost as (extra & Hg' & _ & Hrep).
  exists extra. split; [exact Hg'|]. split; [exact Hrep|]. split.
  - intros ->. split; [now apply replayed_true_length | now apply replayed_true_exact].
  - intros ->. now apply replayed_false_wrong.
Qed.

Lemma recall_appends_a_replay_witness :
  exists ok g' w',
    for_idx 5 (py_range (Z.of_nat (length (sequence (set_sequence [1] init_game))))) true
            (set_sequence [1] init_game)
            (mkWorld [click_on 4 1; click_on 4 1] (quiet 100) [] []) = Ok ok g' w' /\
    ok = true /\ user_sequence g' = [1; 1].
Proof.
  destruct (for_idx 5 (py_range (Z.of_nat (length (sequence (set_sequence [1] init_game)))))
              true (set_sequence [1] init_game)
              (mkWorld [click_on 4 1; click_on 4 1] (quiet 100) [] []))
    as [ok g' w'| | | |] eqn:E; try (vm_compute in E; discriminate).
  destruct (recall_appends_a_replay 5 _ _ ok g' w' E) as (extra & _ & _ & _).
  exists ok, g', w'. split; [reflexivity|].
  vm_compute in E. inversion E; subst. split; reflexivity.
Defined.

Lemma names_button_layout n v : names_button (layout n) v -> 0 <= v < n.
Proof.
  intros (b & Hb & <-). apply In_nth_error in Hb as [j Hj].
  apply layout_nth in Hj as [-> Hjn]. simpl. lia.
Qed.

(** X10: the recall phase writes nothing but the user trace, and every
    identifier it appends is the one of a cell of the current grid. *)
Theorem recall_appends_cell_identifiers
    (n : Z) (fuel : nat) (g : Game) (w : World) (ok : bool) (g' : Game) (w' : World) :
  buttons g = layout n ->
  Forall (fun v => 0 <= v < n) (user_sequence g) ->
  for_idx fuel (py_range (Z.of_nat (length (sequence g)))) true g w = Ok ok g' w' ->
  Forall (fun v => 0 <= v < n) (user_sequence g') /\
  g' = set_user_sequence (user_sequence g') g.
Proof.
  intros Hb Hold H.
  pose proof (for_idx_answer fuel _ _ g w (py_range_steps (sequence g))) as Hpost.
  rewrite H in Hpost. simpl in Hpost. destruct Hpost as (extra & -> & Hnames & _).
  split; [|reflexivity]. simpl. apply Forall_app. split; [exact Hold|].
  rewrite Hb in Hnames. eapply Forall_impl; [|exact Hnames].
  intros v. apply names_button_layout.
Qed.

Lemma recall_appends_cell_identifiers_witness :
  buttons (set_sequence [1] init_game) = layout 4 /\
  exists ok g' w',
    for_idx 5 (py_range (Z.of_nat (length (sequence (set_sequence [1] init_game))))) true
            (set_sequence [1] init_game)
            (mkWorld [click_on 4 3] (quiet 100) [] []) = Ok ok g' w' /\
    Forall (fun v => 0 <= v < 4) (user_sequence g').
Proof.
  split; [reflexivity|].
  destruct (for_idx 5 (py_range (Z.of_nat (length (sequence (set_sequence [1] init_game)))))
              true (set_sequence [1] init_game)
              (mkWorld [click_on 4 3] (quiet 100) [] []))
    as [ok g' w'| | | |] eqn:E; try (vm_compute in E; discriminate).
  destruct (recall_appends_cell_identifiers 4 5 (set_sequence [1] init_game)
              (mkWorld [click_on 4 3] (quiet 100) [] []) ok g' w') as (H & _);
    [reflexivity | constructor | exact E |].
  exists ok, g', w'. split; [reflexivity | exact H].
Defined.

(** X11: a poll that returns exactly one click, on a button.  The press
    is animated (41 blocking calls), the identifier is appended to the
    user trace, the poll ends with its tick; then, if the identifier is
    the expected element, the next element is asked for, and if it is
    not, the recall phase is left at once with [running] false, whatever
    is left of the sequence. *)
Theorem single_click_poll
    (fuel : nat) (idx : Z) (rest : list Z) (g : Game) (w : World)
    (pos : Z * Z) (button : Button.t) (expected : Z) :
  queue w = [MOUSEBUTTONDOWN pos] ->
  find (fun b => Button.is_clicked b pos) (buttons g) = Some button ->
  py_index (sequence g) idx = Some expected ->
  (press_calls + 1 <= length (timeline w))%nat ->
  let g1 := appended [Button.id button] g in
  let w1 := advance (press_calls + 1) (press_shown (Button.id button) ++ [Tick])
                    (mkWorld [] (timeline w) (dice w) (out w)) in
  for_idx (S fuel) (idx :: rest) true g w =
  if Button.id button =? expected
  then for_idx (S fuel) rest true g1 w1
  else Ok false g1 w1.
Proof.
  intros Hq Hfind Hidx Hw g1 w1.
  cbn [for_idx wait_input]. unfold bind at 1 2, event_get. rewrite Hq.
  cbn [for_events]. unfold bind at 1 2 3, get. rewrite for_buttons_find, Hfind.
  rewrite (press_runs button idx _ g _ expected Hidx) by (simpl; lia).
  cbn [ret bind running]. unfold bind at 1.
  rewrite (runs_for_tick Recall) by (rewrite advance_timeline; simpl; lia).
  rewrite advance_advance. cbn [user_input].
  destruct (Button.id button =? expected); reflexivity.
Qed.

Lemma single_click_poll_witness :
  queue (mkWorld [click_on 4 2] (quiet 50) [] []) = [click_on 4 2] /\
  for_idx 1 [0; 1] true (set_sequence [2; 0] init_game)
          (mkWorld [click_on 4 2] (quiet 50) [] []) =
  for_idx 1 [1] true (appended [2] (set_sequence [2; 0] init_game))
          (advance (press_calls + 1) (press_shown 2 ++ [Tick])
                   (mkWorld [] (quiet 50) [] [])).
Proof.
  split; [reflexivity|].
  apply (single_click_poll 0 0 [1] (set_sequence [2; 0] init_game)
           (mkWorld [click_on 4 2] (quiet 50) [] [])
           (Rect.centerx (Button.rect (button_at 4 2)),
            Rect.centery (Button.rect (button_at 4 2)))
           (button_at 4 2) 2);
    [reflexivity | reflexivity | reflexivity | vm_compute; repeat constructor].
Defined.

(** ** What the playback shows *)

Lemma highlights_of_playback hold (l : list Z) :
  highlights_of (flat_map (playback_of hold) l) = l /\
  unhighlights_of (flat_map (playback_of hold) l) = l /\
  ticks_of (flat_map (playback_of hold) l) = (40 * length l)%nat /\
  delayed (flat_map (playback_of hold) l) = Z.of_nat (length l) * (hold + 100).
Proof.
  induction l as [|v l (IH1 & IH2 & IH3 & IH4)]; [repeat split|].
  cbn [flat_map].
  unfold highlights_of, unhighlights_of, ticks_of, delayed, delays_of in *.
  rewrite !flat_map_app, filter_app, length_app, IH1, IH2, IH3.
  rewrite fold_right_app, IH4.
  split; [reflexivity|]. split; [reflexivity|]. split.
  - change (length (filter (fun o => match o with Tick => true | _ => false end)
                           (playback_of hold v))) with 40%nat.
    cbn [length]. lia.
  - change (flat_map (fun o => match o with Delay ms => [ms] | _ => [] end)
                     (playback_of hold v)) with [hold; 100].
    cbn [fold_right length]. rewrite Nat2Z.inj_succ. lia.
Qed.

(** X12: the playback shows the sequence.  In any state of a session,
    with enough timeline ahead, [animate_sequence] highlights the
    elements of the sequence in order, un-highlights each of them, shows
    40 frames and waits [highlight_delay + 100] ms per element, makes 42
    blocking calls per element, and draws no random number. *)
Theorem playback_shows_the_sequence
    (fuel : nat) (g0 : Game) (w0 : World) (g : Game) (w : World) :
  final_game (run_gameplay fuel g0 w0) = Some g ->
  (length (sequence g) * playback_calls <= length (timeline w))%nat ->
  exists shown w',
    animate_sequence g w = Ok tt g w' /\
    out w' = out w ++ shown /\
    highlights_of shown = sequence g /\
    unhighlights_of shown = sequence g /\
    ticks_of shown = (40 * length (sequence g))%nat /\
    delayed shown = Z.of_nat (length (sequence g)) * (highlight_delay g + 100) /\
    length (timeline w') = (length (timeline w) - 42 * length (sequence g))%nat /\
    dice w' = dice w.
Proof.
  intros Hobs Hw.
  destruct (observed_settings _ _ _ _ Hobs) as (Hb & Hr & _).
  destruct (highlights_of_playback (highlight_delay g) (sequence g))
    as (H1 & H2 & H3 & H4).
  do 2 eexists. split; [now apply animate_sequence_runs|].
  split; [reflexivity|]. repeat (split; [assumption|]).
  split; [|reflexivity].
  rewrite advance_timeline. unfold playback_calls. simpl. lia.
Qed.

Lemma playback_shows_the_sequence_witness :
  exists g shown w',
    final_game (run_gameplay 2000 init_game five_rounds) = Some g /\
    (length (sequence g) * playback_calls
     <= length (timeline (mkWorld [] (quiet 300) [] [])))%nat /\
    animate_sequence g (mkWorld [] (quiet 300) [] []) = Ok tt g w' /\
    out w' = shown /\ highlights_of shown = [1; 2; 3; 0; 1; 5].
Proof.
  destruct (final_game (run_gameplay 2000 init_game five_rounds)) as [g|] eqn:E;
    [|vm_compute in E; discriminate].
  assert (Hseq : sequence g = [1; 2; 3; 0; 1; 5])
    by (vm_compute in E; inversion E; reflexivity).
  assert (Hw : (length (sequence g) * playback_calls
                <= length (timeline (mkWorld [] (quiet 300) [] [])))%nat)
    by (rewrite Hseq; vm_compute; repeat constructor).
  destruct (playback_shows_the_sequence 2000 init_game five_rounds g
              (mkWorld [] (quiet 300) [] []) E Hw)
    as (shown & w' & Ha & Ho & Hh & _).
  exists g, shown, w'. split; [reflexivity|]. split; [exact Hw|].
  split; [exact Ha|]. split; [exact Ho|]. now rewrite Hh.
Defined.

(** ** QUIT in a poll *)

Lemma for_buttons_none bs pos idx loc :
  existsb (fun b => Button.is_clicked b pos) bs = false ->
  for_buttons bs pos idx loc = ret loc.
Proof.
  intros H. rewrite for_buttons_find.
  destruct (find (fun b => Button.is_clicked b pos) bs) as [b|] eqn:E; [|reflexivity].
  apply find_some in E as [Hb Hc].
  assert (existsb (fun b => Button.is_clicked b pos) bs = true)
    by (apply existsb_exists; now exists b).
  congruence.
Qed.

(** X13: QUIT.  In each of the three menus and in the recall phase, a
    poll in which no click before the QUIT event hit a button of that
    screen ends the program at the QUIT, with the game as it was; the
    events behind the QUIT are never handled. *)
Theorem quit_ends_the_program
    (before behind : list Event) (idx : Z) (loc : Locals) (g : Game) (w : World) :
  (Forall (misses (Rect.collidepoint start_button_rect)) before ->
   title_events (before ++ QUIT :: behind) g w = Exit g w) /\
  (Forall (misses (fun pos => Rect.collidepoint normal_button_rect pos
                              || Rect.collidepoint fast_button_rect pos)) before ->
   difficulty_events (before ++ QUIT :: behind) g w = Exit g w) /\
  (Forall (misses (Rect.collidepoint restart_button_rect)) before ->
   game_over_events (before ++ QUIT :: behind) g w = Exit g w) /\
  (Forall (misses (fun pos => existsb (fun b => Button.is_clicked b pos) (buttons g)))
          before ->
   for_events (before ++ QUIT :: behind) idx loc g w = Exit g w).
Proof.
  split; [|split; [|split]]; intros Hall.
  - induction Hall as [|[|pos|] rest Hev _ IH]; simpl in *;
      [reflexivity | contradiction | now rewrite Hev | exact IH].
  - induction Hall as [|[|pos|] rest Hev _ IH]; simpl in *;
      [reflexivity | contradiction | | exact IH].
    apply orb_false_iff in Hev as [-> ->]. exact IH.
  - induction Hall as [|[|pos|] rest Hev _ IH]; simpl in *;
      [reflexivity | contradiction | now rewrite Hev | exact IH].
  - induction Hall as [|[|pos|] rest Hev _ IH]; cbn [app for_events].
    + reflexivity.
    + contradiction.
    + unfold bind at 1 2, get. simpl in Hev.
      rewrite (for_buttons_none _ _ _ _ Hev). exact IH.
    + unfold bind at 1. exact IH.
Qed.

Lemma quit_ends_the_program_witness :
  Forall (misses (Rect.collidepoint start_button_rect)) [OTHER; MOUSEBUTTONDOWN (10, 10)] /\
  title_events ([OTHER; MOUSEBUTTONDOWN (10, 10)] ++ QUIT :: [MOUSEBUTTONDOWN (400, 380)])
               init_game (mkWorld [] [] [] []) = Exit init_game (mkWorld [] [] [] []).
Proof.
  assert (H : Forall (misses (Rect.collidepoint start_button_rect))
                     [OTHER; MOUSEBUTTONDOWN (10, 10)])
    by (repeat constructor).
  split; [exact H|].
  destruct (quit_ends_the_program [OTHER; MOUSEBUTTONDOWN (10, 10)]
              [MOUSEBUTTONDOWN (400, 380)] 0 (mkLocals None true) init_game
              (mkWorld [] [] [] [])) as (Ht & _).
  exact (Ht H).
Defined.

(** ** The colours of a button *)

Section Colours.
Context {numbers : Numbers}.

Lemma update_not_animating (p : Paint) :
  animating p = false ->
  animating (update p) = false /\ current_color (update p) = current_color p /\
  target_color (update p) = target_color p.
Proof.
  intros Ha. unfold update, update_colour. rewrite Ha.
  unfold update_scale, with_scale.
  destruct (scaling p); [|auto].
  destruct (nlt (scale p) (target_scale p)).
  - destruct (nge _ _); simpl; auto.
  - destruct (ngt (scale p) (target_scale p)); [|auto].
    destruct (nle _ _); simpl; auto.
Qed.

Lemma iter_update_not_animating (k : nat) (p : Paint) :
  animating p = false ->
  animating (Nat.iter k update p) = false /\
  current_color (Nat.iter k update p) = current_color p /\
  target_color (Nat.iter k update p) = target_color p.
Proof.
  intros Ha. induction k as [|k (IH1 & IH2 & IH3)]; [auto|].
  rewrite Nat.iter_succ. destruct (update_not_animating _ IH1) as (H1 & H2 & H3).
  repeat split; congruence.
Qed.

Lemma update_animating (p : Paint) :
  animating p = true ->
  target_color (update p) = target_color p /\
  animation_step (update p) = animation_step p + 1 /\
  (animating (update p) = false /\ current_color (update p) = target_color p \/
   animating (update p) = true /\ animation_step p + 1 < HIGHLIGHT_ANIMATION_STEPS).
Proof.
  intros Ha.
  assert (Hc : target_color (update_colour p) = target_color p /\
               animation_step (update_colour p) = animation_step p + 1 /\
               (animating (update_colour p) = false /\
                current_color (update_colour p) = target_color p \/
                animating (update_colour p) = true /\
                animation_step p + 1 < HIGHLIGHT_ANIMATION_STEPS)).
  { unfold update_colour. rewrite Ha.
    destruct (current_color p) as [[r g] b]. destruct (target_color p) as [[tr tg] tb].
    destruct (nlt (nabs (nsub r tr)) (of_int 1) && nlt (nabs (nsub g tg)) (of_int 1)
              && nlt (nabs (nsub b tb)) (of_int 1)); cbn [orb].
    - simpl. auto.
    - destruct (HIGHLIGHT_ANIMATION_STEPS <=? animation_step p + 1) eqn:E; simpl.
      + auto.
      + apply Z.leb_gt in E. auto. }
  unfold update, update_scale, with_scale.
  destruct (scaling (update_colour p)); [|exact Hc].
  destruct (nlt _ _).
  - destruct (nge _ _); simpl; exact Hc.
  - destruct (ngt _ _); [|exact Hc]. destruct (nle _ _); simpl; exact Hc.
Qed.

Lemma iter_update_settles (k : nat) (p : Paint) :
  animating p = true -> 0 <= animation_step p < HIGHLIGHT_ANIMATION_STEPS ->
  HIGHLIGHT_ANIMATION_STEPS <= animation_step p + Z.of_nat k ->
  animating (Nat.iter k update p) = false /\
  current_color (Nat.iter k update p) = target_color p /\
  target_color (Nat.iter k update p) = target_color p.
Proof.
  revert p. induction k as [|k IH]; intros p Ha Hs Hk; [lia|].
  rewrite Nat.iter_succ_r.
  destruct (update_animating p Ha) as (Ht & Hstep & [(Hdone & Hcol) | (Hon & Hlt)]).
  - destruct (iter_update_not_animating k (update p) Hdone) as (H1 & H2 & H3).
    repeat split; congruence.
  - destruct (IH (update p) Hon) as (H1 & H2 & H3); [lia | lia |].
    repeat split; congruence.
Qed.

(** X14: the colour animation of a button ends within the frames of its
    loop.  After [start_highlight] (or [start_unhighlight]), 20 calls of
    [update] or more leave the button not animating and showing exactly
    the highlight colour (the base colour), whatever the float arithmetic
    of the steps in between does. *)
Theorem colour_animation_settles (p : Paint) (k : nat) :
  (Z.to_nat HIGHLIGHT_ANIMATION_STEPS <= k)%nat ->
  (animating (Nat.iter k update (start_highlight p)) = false /\
   current_color (Nat.iter k update (start_highlight p)) = highlight_color p) /\
  (animating (Nat.iter k update (start_unhighlight p)) = false /\
   current_color (Nat.iter k update (start_unhighlight p)) = base_color p).
Proof.
  intros Hk. unfold HIGHLIGHT_ANIMATION_STEPS in Hk. split.
  - destruct (iter_update_settles k (start_highlight p)) as (H1 & H2 & _);
      simpl; unfold HIGHLIGHT_ANIMATION_STEPS; auto; lia.
  - destruct (iter_update_settles k (start_unhighlight p)) as (H1 & H2 & _);
      simpl; unfold HIGHLIGHT_ANIMATION_STEPS; auto; lia.
Qed.

(** X15: [start_hover] (and [end_hover]) set a target colour but do not
    start the colour animation: on a button that is not animating, no
    number of [update] calls after them changes the colour shown. *)
Theorem hover_never_changes_the_colour (p : Paint) (k : nat) :
  animating p = false ->
  current_color (Nat.iter k update (start_hover p)) = current_color p /\
  current_color (Nat.iter k update (end_hover p)) = current_color p.
Proof.
  intros Ha. split.
  - now destruct (iter_update_not_animating k (start_hover p) Ha) as (_ & H & _).
  - now destruct (iter_update_not_animating k (end_hover p) Ha) as (_ & H & _).
Qed.

End Colours.

Lemma colour_animation_settles_witness :
  (Z.to_nat HIGHLIGHT_ANIMATION_STEPS <= 20)%nat /\
  current_color (Nat.iter 20 update (start_highlight (numbers := integer_numbers) new_paint))
  = (50, 205, 50).
Proof.
  split; [vm_compute; repeat constructor|].
  destruct (colour_animation_settles (numbers := integer_numbers) new_paint 20)
    as ((_ & H) & _); [vm_compute; repeat constructor | exact H].
Defined.

Lemma hover_never_changes_the_colour_witness :
  animating (numbers := integer_numbers) new_paint = false /\
  current_color (Nat.iter 7 update (start_hover (numbers := integer_numbers) new_paint))
  = (70, 70, 70).
Proof.
  split; [reflexivity|].
  destruct (hover_never_changes_the_colour (numbers := integer_numbers) new_paint 7)
    as (H & _); [reflexivity | exact H].
Defined.

(** ** The random draws of a session *)

Create HintDb draws.

Lemma draw_free_bind {A B : Type} (m : M A) (k : A -> M B) :
  draw_free m -> (forall a, draw_free (k a)) -> draw_free (bind m k).
Proof.
  intros Hm Hk g w. unfold bind. specialize (Hm g w).
  destruct (m g w) as [a g1 w1|g1 w1|e g1 w1|ph g1 w1|]; auto.
  specialize (Hk a g1 w1). destruct Hm as [Hs Hd].
  destruct (k a g1 w1); auto; destruct Hk; split; congruence.
Qed.

Lemma draw_free_ret {A : Type} (a : A) : draw_free (ret a).
Proof. intros g w. simpl. auto. Qed.

Lemma draw_free_get : draw_free get.
Proof. intros g w. simpl. auto. Qed.

Lemma draw_free_modify f :
  (forall g, sequence (f g) = sequence g) -> draw_free (modify f).
Proof. intros Hf g w. simpl. auto. Qed.

Lemma draw_free_raise {A : Type} e : draw_free (@raise A e).
Proof. intros g w. simpl. auto. Qed.

Lemma draw_free_exit {A : Type} : draw_free (@sys_exit A).
Proof. intros g w. simpl. auto. Qed.

Lemma draw_free_fuel {A : Type} : draw_free (@out_of_fuel A).
Proof. intros g w. exact I. Qed.

Lemma draw_free_lift {A : Type} (p : Py A) : draw_free (lift_py p).
Proof. destruct p; intros g w; simpl; auto. Qed.

Lemma draw_free_emit o : draw_free (emit o).
Proof. intros g w. simpl. auto. Qed.

Lemma draw_free_elapse ph : draw_free (elapse ph).
Proof. intros g w. unfold elapse. destruct (timeline w); simpl; auto. Qed.

Lemma draw_free_event_get : draw_free event_get.
Proof. intros g w. simpl. auto. Qed.

#[local] Hint Resolve draw_free_ret draw_free_get draw_free_raise
  draw_free_exit draw_free_fuel draw_free_lift draw_free_emit draw_free_elapse
  draw_free_event_get : draws.

Lemma draw_free_each {A : Type} (l : list A) (body : A -> M unit) :
  (forall a, draw_free (body a)) -> draw_free (for_each l body).
Proof.
  intros Hb. induction l as [|a l IH]; simpl; [auto with draws|].
  apply draw_free_bind; auto.
Qed.

Lemma draw_free_tick ph : draw_free (tick ph).
Proof. apply draw_free_bind; auto with draws. Qed.

Lemma draw_free_delay ph ms : draw_free (delay ph ms).
Proof. apply draw_free_bind; auto with draws. Qed.

#[local] Hint Resolve draw_free_tick draw_free_delay : draws.

Lemma draw_free_animation ph : draw_free (animation ph).
Proof.
  apply draw_free_each. intros _. apply draw_free_bind; auto with draws.
Qed.

#[local] Hint Resolve draw_free_animation : draws.

Lemma draw_free_animate_sequence : draw_free animate_sequence.
Proof.
  apply draw_free_bind; [auto with draws|]. intros g.
  apply draw_free_each. intros v. apply draw_free_bind; [auto with draws|]. intros g1.
  destruct (py_index (buttons g1) v); [|auto with draws].
  repeat (apply draw_free_bind; [auto with draws | intros _]). auto with draws.
Qed.

Lemma draw_free_press button idx loc : draw_free (press button idx loc).
Proof.
  unfold press.
  do 5 (apply draw_free_bind; [auto with draws | intros _]).
  apply draw_free_bind; [now apply draw_free_modify | intros _].
  apply draw_free_bind; [auto with draws|]. intros g.
  destruct (py_index (sequence g) idx); [|auto with draws].
  destruct (negb _); auto with draws.
Qed.

Lemma draw_free_for_buttons bs pos idx loc : draw_free (for_buttons bs pos idx loc).
Proof.
  induction bs as [|b bs IH]; simpl; [auto with draws|].
  destruct (Button.is_clicked b pos); [apply draw_free_press | exact IH].
Qed.

Lemma draw_free_for_events batch idx loc : draw_free (for_events batch idx loc).
Proof.
  revert loc. induction batch as [|event rest IH]; intros loc; simpl; [auto with draws|].
  apply draw_free_bind; [|intros loc'; apply IH].
  destruct event; auto with draws.
  apply draw_free_bind; [auto with draws|]. intros g. apply draw_free_for_buttons.
Qed.

Lemma draw_free_wait_input fuel idx loc : draw_free (wait_input fuel idx loc).
Proof.
  revert loc. induction fuel as [|fuel IH]; intros loc; simpl; [auto with draws|].
  apply draw_free_bind; [auto with draws|]. intros batch.
  apply draw_free_bind; [apply draw_free_for_events|]. intros loc'.
  apply draw_free_bind; [auto with draws|]. intros _.
  destruct (user_input loc'); auto with draws.
Qed.

Lemma draw_free_for_idx fuel idxs running0 : draw_free (for_idx fuel idxs running0).
Proof.
  revert running0. induction idxs as [|i rest IH]; intros running0; simpl;
    [auto with draws|].
  apply draw_free_bind; [apply draw_free_wait_input|]. intros loc.
  destruct (negb (running loc)); auto with draws.
Qed.

Lemma draw_free_add_buttons count : draw_free (add_buttons count).
Proof.
  unfold add_buttons. apply draw_free_bind.
  - apply draw_free_each. intros _. apply draw_free_bind; [auto with draws|]. intros g.
    destruct (num_buttons g <? max_buttons g); [now apply draw_free_modify | auto with draws].
  - intros _. apply draw_free_bind; [auto with draws|]. intros g.
    apply draw_free_bind; [auto with draws|]. intros created.
    now apply draw_free_modify.
Qed.

Lemma draw_free_complete_round : draw_free complete_round.
Proof.
  unfold complete_round. apply draw_free_bind; [now apply draw_free_modify|]. intros _.
  apply draw_free_bind; [auto with draws|]. intros g.
  destruct ((score g mod 5 =? 0) && (num_buttons g <? max_buttons g)); [|auto with draws].
  apply draw_free_bind; [apply draw_free_add_buttons | auto with draws].
Qed.

(** A specification and [draw_free] together. *)
Lemma post_draw_free {A : Type} (m : M A) g w I X F Q :
  post I X F (m g w) Q -> draw_free m ->
  post (fun ph g' w' => I ph g' w' /\ sequence g' = sequence g /\ dice w' = dice w)
       (fun g' w' => X g' w' /\ sequence g' = sequence g /\ dice w' = dice w) F (m g w)
       (fun a g' w' => Q a g' w' /\ sequence g' = sequence g /\ dice w' = dice w).
Proof.
  intros Hp Hd. specialize (Hd g w).
  destruct (m g w); simpl in *; auto.
Qed.

Lemma draws_succ maximum source k :
  draws maximum source (S k) =
  draws maximum source k ++ [nth k source 0 mod grown maximum (Z.of_nat k)].
Proof. unfold draws. now rewrite seq_S, map_app. Qed.

Lemma hd_skipn (k : nat) (l : list Z) : hd 0 (skipn k l) = nth k l 0.
Proof.
  revert l. induction k as [|k IH]; intros [|a l]; simpl; auto.
Qed.

Lemma tl_skipn {A : Type} (k : nat) (l : list A) : tl (skipn k l) = skipn (S k) l.
Proof.
  revert l. induction k as [|k IH]; intros l.
  - now destruct l.
  - destruct l as [|a l]; [reflexivity|]. apply (IH l).
Qed.

Lemma drawn_so_far_same maximum source g g' w w' :
  sequence g' = sequence g -> dice w' = dice w ->
  drawn_so_far maximum source g w -> drawn_so_far maximum source g' w'.
Proof.
  intros Hs Hd [H1 H2]. unfold drawn_so_far. rewrite Hs, Hd. auto.
Qed.

Lemma round_loop_draws g0 source fuel g w :
  session_inv g0 0 g ->
  drawn_so_far (max_buttons g0) source g w ->
  post (fun _ g' w' => drawn_so_far (max_buttons g0) source g' w')
       (fun g' w' => drawn_so_far (max_buttons g0) source g' w')
       True (round_loop fuel g w)
       (fun _ g' w' => drawn_so_far (max_buttons g0) source g' w').
Proof.
  revert g w. induction fuel as [|fuel IH]; intros g w Hinv Hdr; [exact I|].
  cbn [round_loop].
  (* the frame and the delay *)
  apply post_bind. unfold emit at 1. cbn [post].
  set (w0 := mkWorld (queue w) (timeline w) (dice w) (out w ++ [Frame])).
  assert (Hdr0 : drawn_so_far (max_buttons g0) source g w0)
    by (apply (drawn_so_far_same _ _ g g w w0); auto).
  apply post_bind.
  eapply post_mono;
    [apply (post_draw_free (delay RoundStart 500) g w0 _ _ _ _
              (idles_delay RoundStart 500 g w0) (draw_free_delay RoundStart 500))
    | | | | ]; cbv beta.
  { intros ph g' w' (_ & Hs & Hd). now apply (drawn_so_far_same _ _ g g' w0 w'). }
  { intros g' w' ([] & _). }
  { intros []. }
  intros _ g1 w1 ((-> & _) & _ & Hd1).
  assert (Hdr1 : drawn_so_far (max_buttons g0) source g w1)
    by (apply (drawn_so_far_same _ _ g g w0 w1); auto).
  (* the draw *)
  assert (Hcells : 4 <= num_buttons g).
  { destruct Hinv as [_ _ _ _ _ _ _ Hc _ _]. rewrite Hc. apply grown_bounds. }
  unfold bind at 1. rewrite add_to_sequence_runs by lia.
  set (v := hd 0 (dice w1) mod num_buttons g).
  assert (Hv : 0 <= v < num_buttons g) by (apply Z.mod_pos_bound; lia).
  pose proof (session_inv_append g0 g v Hinv Hv) as Hinv1.
  set (g2 := set_sequence (sequence g ++ [v]) g) in *.
  set (w2 := mkWorld (queue w1) (timeline w1) (tl (dice w1)) (out w1)).
  assert (Hdr2 : drawn_so_far (max_buttons g0) source g2 w2).
  { destruct Hdr1 as [H1 H2]. destruct Hinv as [_ _ _ _ _ _ Hl Hc _ _].
    unfold drawn_so_far. cbn [sequence set_sequence dice g2 w2].
    rewrite length_app. cbn [length]. rewrite Nat.add_1_r, draws_succ, <- H1.
    split.
    - f_equal. f_equal. unfold v. rewrite H2, hd_skipn, Hc. f_equal. f_equal. lia.
    - rewrite H2. apply tl_skipn. }
  (* the playback *)
  apply post_bind.
  eapply post_mono;
    [apply (post_draw_free animate_sequence g2 w2 _ _ _ _
              (animate_sequence_idles g2 ltac:(now destruct Hinv1)
                 ltac:(now destruct Hinv1) w2)
              draw_free_animate_sequence)
    | | | | ]; cbv beta.
  { intros ph g' w' (_ & Hs & Hd). now apply (drawn_so_far_same _ _ g2 g' w2 w'). }
  { intros g' w' ([] & _). }
  { intros []. }
  intros _ g3 w3 ((-> & _) & _ & Hd3).
  assert (Hdr3 : drawn_so_far (max_buttons g0) source g2 w3)
    by (apply (drawn_so_far_same _ _ g2 g2 w2 w3); auto).
  (* the recall phase *)
  unfold bind at 1, modify, bind at 1, get.
  set (g4 := set_user_sequence [] g2).
  assert (Hrec : recalled g2 g4) by now eexists.
  pose proof (recalled_inv g0 1 g2 g4 Hrec Hinv1) as Hinv4.
  assert (Hdr4 : drawn_so_far (max_buttons g0) source g4 w3)
    by (apply (drawn_so_far_same _ _ g2 g4 w3 w3); auto).
  assert (Hidxs : Forall (fun i => exists e, py_index (sequence g4) i = Some e)
                         (py_range (Z.of_nat (length (sequence g4))))).
  { apply Forall_forall. intros i Hi. apply py_range_In in Hi. now apply py_index_some. }
  apply post_bind.
  eapply post_mono;
    [apply (post_draw_free
              (for_idx fuel (py_range (Z.of_nat (length (sequence g4)))) true) g4 w3
              _ _ _ _
              (for_idx_spec fuel (py_range (Z.of_nat (length (sequence g4)))) true g4 w3
                 Hidxs)
              (draw_free_for_idx fuel _ true))
    | | | | ]; cbv beta.
  { intros ph g' w' (_ & Hs & Hd). now apply (drawn_so_far_same _ _ g4 g' w3 w'). }
  { intros g' w' (_ & Hs & Hd). now apply (drawn_so_far_same _ _ g4 g' w3 w'). }
  { auto. }
  intros still g5 w5 ((Hg5 & _) & Hs5 & Hd5).
  assert (Hdr5 : drawn_so_far (max_buttons g0) source g5 w5)
    by (apply (drawn_so_far_same _ _ g4 g5 w3 w5); auto).
  pose proof (recalled_inv g0 1 g4 g5 Hg5 Hinv4) as Hinv5.
  destruct (negb still); [exact Hdr5|].
  (* the end of a correct round *)
  apply post_bind.
  eapply post_mono;
    [apply (post_draw_free complete_round g5 w5 _ _ _ _
              (complete_round_spec g0 g5 w5 Hinv5) draw_free_complete_round)
    | | | | ]; cbv beta.
  { intros ph g' w' (_ & Hs & Hd). now apply (drawn_so_far_same _ _ g5 g' w5 w'). }
  { intros g' w' ([] & _). }
  { intros []. }
  intros _ g6 w6 ((Hinv6 & _) & Hs6 & Hd6).
  apply IH; [exact Hinv6|].
  now apply (drawn_so_far_same _ _ g5 g6 w5 w6).
Qed.

Lemma nth_map_seq (f : nat -> Z) (k j : nat) (d : Z) :
  (j < k)%nat -> nth j (map f (seq 0 k)) d = f j.
Proof.
  intros Hj. rewrite (nth_indep _ d (f 0%nat)) by (now rewrite length_map, length_seq).
  rewrite map_nth, seq_nth by exact Hj. reflexivity.
Qed.

(** X16: the sequence of a session is a function of the random source.
    Each round draws exactly one number and nothing else does: in every
    state a session can be observed in, element [j] of the sequence is
    raw draw [j] reduced modulo the cell count of its round,
    [grown maximum j], and the draws still to come are the source without
    its first [length sequence] entries. *)
Theorem sequence_follows_the_draws
    (fuel : nat) (g : Game) (w : World) (g' : Game) (w' : World) :
  final_game (run_gameplay fuel g w) = Some g' ->
  final_world (run_gameplay fuel g w) = Some w' ->
  sequence g' = draws (max_buttons g) (dice w) (length (sequence g')) /\
  dice w' = skipn (length (sequence g')) (dice w) /\
  forall j, (j < length (sequence g'))%nat ->
    nth j (sequence g') 0 = nth j (dice w) 0 mod grown (max_buttons g) (Z.of_nat j).
Proof.
  intros Hg Hw.
  assert (Hpost : post (fun _ g1 w1 => drawn_so_far (max_buttons g) (dice w) g1 w1)
                       (fun g1 w1 => drawn_so_far (max_buttons g) (dice w) g1 w1) True
                       (run_gameplay fuel g w)
                       (fun _ g1 w1 => drawn_so_far (max_buttons g) (dice w) g1 w1)).
  { unfold run_gameplay, bind at 1. rewrite reset_game_runs.
    apply post_bind.
    eapply post_mono;
      [apply (round_loop_draws g (dice w) fuel _ w (session_inv_reset g));
       split; reflexivity | | | | ]; cbv beta; auto. }
  assert (H : drawn_so_far (max_buttons g) (dice w) g' w').
  { destruct (run_gameplay fuel g w) as [[] g1 w1|g1 w1|e g1 w1|ph g1 w1|];
      simpl in *; try contradiction; try discriminate;
      inversion Hg; inversion Hw; subst; exact Hpost. }
  destruct H as [H1 H2]. split; [exact H1|]. split; [exact H2|].
  intros j Hj. rewrite H1 at 1. unfold draws. now rewrite nth_map_seq.
Qed.

Lemma sequence_follows_the_draws_witness :
  exists g' w',
    final_game (run_gameplay 2000 init_game five_rounds) = Some g' /\
    final_world (run_gameplay 2000 init_game five_rounds) = Some w' /\
    sequence g' = draws 10 [1; 2; 3; 0; 1; 5] 6 /\ dice w' = [].
Proof.
  destruct (final_game (run_gameplay 2000 init_game five_rounds)) as [g'|] eqn:Eg;
    [|vm_compute in Eg; discriminate].
  destruct (final_world (run_gameplay 2000 init_game five_rounds)) as [w'|] eqn:Ew;
    [|vm_compute in Ew; discriminate].
  destruct (sequence_follows_the_draws 2000 init_game five_rounds g' w' Eg Ew)
    as (Hs & Hd & _).
  assert (Hlen : length (sequence g') = 6%nat)
    by (vm_compute in Eg; inversion Eg; reflexivity).
  exists g', w'. split; [reflexivity|]. split; [reflexivity|].
  rewrite Hlen in Hs, Hd. split; [exact Hs | exact Hd].
Defined.
